(** * urql client: response cache and subscription registry

    A shallow embedding of [src/modules/client.ts] (class [Client]) and the
    properties of its cache, its subscription registry and its two request
    paths, [executeQuery] and [executeMutation]. *)

From Stdlib Require Import PrimFloat Ascii.
From stdpp Require Import base option list strings pretty gmap.

Open Scope string_scope.
Open Scope list_scope.

(** ** JavaScript values

    The values the client handles are the ones [res.json()] produces and
    [JSON.stringify] consumes.  A number is an IEEE 754 double, as in the
    language.  An object is the list of its own enumerable properties in
    enumeration order; for keys that are not array indices this is the order
    in which they were first assigned. *)

#[warnings="-register-all"]
Inductive JSON : Type :=
| JNull
| JBool (b : bool)
| JNumber (x : float)
| JString (s : string)
| JArray (items : list JSON)
| JObject (props : list (string * JSON)).

Abbreviation Props := (list (string * JSON)).

(** [undefined] is the absent value of a property read: [None]. *)
Abbreviation undefined := (@None JSON).

(** ToBoolean: [null], [false], [0], [-0], [NaN] and the empty string are falsy, every
    object and array is truthy. *)
Definition truthy (v : JSON) : bool :=
  match v with
  | JNull => false
  | JBool b => b
  | JNumber x => negb (is_zero x || is_nan x)
  | JString s => negb (String.eqb s "")
  | JArray _ | JObject _ => true
  end.

(** ** Objects used as maps: [o[k]], [o[k] = v], [delete o[k]], [for ... in] *)

Section Object.
Context {V : Type}.

(** [o[k]] on own properties. *)
Fixpoint own (o : list (string * V)) (k : string) : option V :=
  match o with
  | [] => None
  | (k', v) :: o' => if String.eqb k' k then Some v else own o' k
  end.

(** [o[k] = v]: an existing property keeps its place, a new one is
    enumerated last. *)
Fixpoint assign (o : list (string * V)) (k : string) (v : V)
  : list (string * V) :=
  match o with
  | [] => [(k, v)]
  | (k', v') :: o' =>
      if String.eqb k' k then (k, v) :: o' else (k', v') :: assign o' k v
  end.

(** [delete o[k]]: removes the own property [k], if there is one. *)
Fixpoint remove (o : list (string * V)) (k : string) : list (string * V) :=
  match o with
  | [] => []
  | (k', v') :: o' =>
      if String.eqb k' k then remove o' k else (k', v') :: remove o' k
  end.

(** The keys [for (const k in o)] visits, in order. *)
Definition keys (o : list (string * V)) : list string := map fst o.
End Object.

(** [{...a, ...b}] once [a] is built: every own property of [b] is assigned
    in turn. *)
Definition spread (a b : Props) : Props :=
  foldl (fun o kv => assign o (fst kv) (snd kv)) a b.

(** ** What is thrown and what a promise is rejected with *)

Inductive Reason : Type :=
| Literal (v : JSON)        (* a value built in place, as in [reject({...})] *)
| Error (message : string)  (* [new Error(message)] *)
| TypeError                 (* raised by the engine: property read on [null] *)
| External (name : string). (* raised by a collaborator: transport, observer *)

(** [{ message: 'No data' }] *)
Definition NoData : Reason :=
  Literal (JObject [("message", JString "No data")]).

(** How an expression or a statement completes. *)
Inductive Completion (A : Type) : Type :=
| Normal (a : A)
| Throw (e : Reason).
Arguments Normal {A} a.
Arguments Throw {A} e.

(** [v.data] and the like: throws on [null]; an object yields its own
    property; arrays, strings, numbers and booleans have no such property
    (neither have their prototypes, for the one key read here, ["data"]). *)
Definition read (v : JSON) (k : string) : Completion (option JSON) :=
  match v with
  | JNull => Throw TypeError
  | JObject props => Normal (own props k)
  | _ => Normal undefined
  end.

(** ** [JSON.stringify]

    QuoteJSONString escapes the double quote, the backslash and the control
    characters; every other character stands for itself. *)

Definition hex_digit (n : N) : Ascii.ascii :=
  Ascii.ascii_of_N (if (n <? 10)%N then 48 + n else 87 + n)%N.

Definition escape (c : Ascii.ascii) : string :=
  let n := Ascii.N_of_ascii c in
  if (n =? 8)%N then "\b"
  else if (n =? 9)%N then "\t"
  else if (n =? 10)%N then "\n"
  else if (n =? 12)%N then "\f"
  else if (n =? 13)%N then "\r"
  else if (n =? 34)%N then String "\"%char (String c "")
  else if (n =? 92)%N then "\\"
  else if (n <? 32)%N then
    "\u00" +:+ String (hex_digit (n / 16)) (String (hex_digit (n mod 16)) "")
  else String c "".

Fixpoint escaped (s : string) : string :=
  match s with
  | EmptyString => ""
  | String c s' => escape c +:+ escaped s'
  end.

Definition quote (s : string) : string :=
  let q := String "034"%char "" in q +:+ escaped s +:+ q.

(** Reading back the first character that [escaped] wrote: [None] on the
    double quote that ends a quoted string. *)
Definition hex_value (c : Ascii.ascii) : N :=
  let n := Ascii.N_of_ascii c in
  (if n <? 58 then n - 48 else n - 87)%N.

Definition unescape (s : string) : option (Ascii.ascii * string) :=
  match s with
  | String c r =>
      let n := Ascii.N_of_ascii c in
      if (n =? 34)%N then None
      else if (n =? 92)%N then
        match r with
        | String x r' =>
            let m := Ascii.N_of_ascii x in
            if (m =? 98)%N then Some (Ascii.ascii_of_N 8, r')
            else if (m =? 116)%N then Some (Ascii.ascii_of_N 9, r')
            else if (m =? 110)%N then Some (Ascii.ascii_of_N 10, r')
            else if (m =? 102)%N then Some (Ascii.ascii_of_N 12, r')
            else if (m =? 114)%N then Some (Ascii.ascii_of_N 13, r')
            else if (m =? 117)%N then
              match r' with
              | String _ (String _ (String h (String l r''))) =>
                  Some (Ascii.ascii_of_N (16 * hex_value h + hex_value l), r'')
              | _ => None
              end
            else Some (x, r')
        | EmptyString => None
        end
      else Some (c, r)
  | EmptyString => None
  end.

Section Stringify.
(** Number::toString, the shortest decimal text that reads back as the
    same double, is the language's own; it is a parameter here. *)
Variable Number_toString : float -> string.

(** SerializeJSONProperty on a value that holds no [undefined], function
    or [toJSON]: object properties are written in enumeration order, a
    number that is not finite is written [null]. *)
Fixpoint stringify (v : JSON) : string :=
  match v with
  | JNull => "null"
  | JBool b => if b then "true" else "false"
  | JNumber x => if is_finite x then Number_toString x else "null"
  | JString s => quote s
  | JArray items =>
      "[" +:+ String.concat "," (map stringify items) +:+ "]"
  | JObject props =>
      "{" +:+ String.concat ","
                (map (fun kv => let '(k, w) := kv in
                                quote k +:+ ":" +:+ stringify w) props)
          +:+ "}"
  end.
End Stringify.

(** ** The client object *)

(** [fetchOptions: object | (() => object)] *)
Inductive FetchOptions : Type :=
| Static (options : Props)
| Provider (provide : unit -> Props).

(** A subscribed callback, [(changedTypes, response) => void], seen from the
    client: called with the two arguments it either returns ([None]) or
    throws ([Some e]).  This is the callback that makes no call to the
    client while it runs; the callback that subscribes or unsubscribes
    meanwhile is the [Observer] further down. *)
Definition Callback : Type := list string -> JSON -> option Reason.

Record Client : Type := mkClient {
  url : string;                              (* Graphql API URL *)
  store : gmap string JSON;                  (* Internal store *)
  fetchOptions : FetchOptions;               (* Options for fetch call *)
  subscriptions : list (string * Callback);  (* Map of subscribed callbacks *)
}.

Record IClientOptions : Type := {
  opt_url : option string;
  opt_fetchOptions : option FetchOptions;
}.

Record IQuery : Type := {
  query : string;
  variables : option JSON;   (* [variables?: object] *)
}.

(** [IMutation] has the fields of [IQuery]. *)
Abbreviation IMutation := IQuery.

(** Response from executeQuery call *)
Record IQueryResponse : Type := {
  data : JSON;
  typeNames : list string;
}.

(** What the client does to its collaborators. *)
Inductive Event : Type :=
| Fetch (to : string) (init : Props)
    (* [fetch(to, init)] *)
| Call (sub : string) (typenames : list string) (changes : JSON).
    (* [this.subscriptions[sub](typenames, changes)] *)

(** What [fetch(...).then(res => res.json())] comes back with. *)
Inductive Answer : Type :=
| Parsed (response : JSON)
| Failed (e : Reason).

Inductive Settlement (A : Type) : Type :=
| Resolved (a : A)
| Rejected (e : Reason).
Arguments Resolved {A} a.
Arguments Rejected {A} e.

(** ** Statements that read and write [this], call out, and may throw *)

Definition M (A : Type) : Type :=
  Client -> Completion A * Client * list Event.

#[global] Instance M_ret : MRet M :=
  fun A a c => (Normal a, c, []).

#[global] Instance M_bind : MBind M :=
  fun A B k m c =>
    match m c with
    | (Normal a, c', evs) =>
        let '(r, c'', evs') := k a c' in (r, c'', evs ++ evs')
    | (Throw e, c', evs) => (Throw e, c', evs)
    end.

Definition this : M Client := fun c => (Normal c, c, []).
Definition throw {A} (e : Reason) : M A := fun c => (Throw e, c, []).
Definition emit (ev : Event) : M unit := fun c => (Normal tt, c, [ev]).

(** [this.store[hash] = v] *)
Definition store_put (hash : string) (v : JSON) : M unit :=
  fun c => (Normal tt,
            mkClient (url c) (<[hash := v]> (store c)) (fetchOptions c)
                     (subscriptions c),
            []).

Definition subscriptions_set (subs : list (string * Callback)) : M unit :=
  fun c => (Normal tt, mkClient (url c) (store c) (fetchOptions c) subs, []).

(** [callback(typenames, changes)] for the callback held under [sub]. *)
Definition call (sub : string) (callback : Callback)
    (typenames : list string) (changes : JSON) : M unit :=
  emit (Call sub typenames changes);;
  match callback typenames changes with
  | None => mret tt
  | Some e => throw e
  end.

(** [for (const k in o) body(k)] *)
Fixpoint for_in (ks : list string) (body : string -> M unit) : M unit :=
  match ks with
  | [] => mret tt
  | k :: ks' => body k;; for_in ks' body
  end.

(** The [.catch(e => { reject(e); })] that ends both promise chains: what a
    handler throws is what the promise is rejected with. *)
Definition catch {A} (m : M (Settlement A)) : M (Settlement A) :=
  fun c =>
    match m c with
    | (Throw e, c', evs) => (Normal (Rejected e), c', evs)
    | r => r
    end.

(** A statement that only evaluates an expression. *)
Definition eval {A} (r : Completion A) : M A := fun c => (r, c, []).

Definition new_Client (opts : option IClientOptions) : Completion Client :=
  match opts with
  | None => Throw (Error "Please provide configuration object")
  | Some o =>
      match opt_url o with
      | Some (String a u) =>
          Normal
            {| url := String a u;
               fetchOptions := default (Static []) (opt_fetchOptions o);
               store := ∅;
               subscriptions := [] |}
      | _ => Throw (Error "Please provide a URL for your GraphQL API")
      end
  end.

(** A request in flight: [fetch] was called and the [.then] handler has not
    run yet.  The handler of a query closes over its [hash]. *)
Inductive Inflight : Type :=
| QueryInflight (hash : string)
| MutationInflight.

(** The client together with the requests it has in flight.  Between two
    handlers anything may run: the scheduler is cooperative, and an answer
    finds the client as the calls made in the meantime left it. *)
Record System : Type := {
  client : Client;
  inflight : list Inflight;
}.

Inductive Action : Type :=
| DoSubscribe (id : string) (callback : Callback)
| DoUnsubscribe (id : string)
| DoExecuteQuery (queryObject : IQuery) (skipCache : bool)
| DoExecuteMutation (mutationObject : IMutation)
| Arrive (n : nat) (a : Answer). (* the [n]-th request in flight is answered *)

(** The client a statement leaves behind. *)
Definition after {A} (m : M A) (c : Client) : Client := (m c).1.2.

(** Two objects with the same key-value pairs, whatever the order of their
    keys; any other two values are the same value. *)
Definition same_pairs (v w : JSON) : Prop :=
  match v, w with
  | JObject o, JObject o' => o ≡ₚ o'
  | _, _ => v = w
  end.

(** The same value, key order included, compared structurally. *)
#[warnings="-register-all"]
Inductive same : JSON -> JSON -> Prop :=
| same_null : same JNull JNull
| same_bool b : same (JBool b) (JBool b)
| same_number x : same (JNumber x) (JNumber x)
| same_string s : same (JString s) (JString s)
| same_array items items' :
    Forall2 same items items' -> same (JArray items) (JArray items')
| same_object props props' :
    Forall2 (fun p p' => p.1 = p'.1 /\ same p.2 p'.2) props props' ->
    same (JObject props) (JObject props').

Definition same_request (q q' : IQuery) : Prop :=
  query q = query q' /\ option_Forall2 same (variables q) (variables q').

(** How the executor of [executeQuery] leaves its promise. *)
Inductive Started : Type :=
| Served (r : IQueryResponse)  (* [resolve] was called, [fetch] was not *)
| Awaiting (hash : string).    (* [fetch] was called; the handler holds [hash] *)

(** ** Callbacks that call back into the client

    A callback holds whatever its closure holds, the client included, so
    while [updateSubscribers] runs it a callback may itself call [subscribe]
    and [unsubscribe].  [Callback] above is the callback that makes no such
    call; an [Observer] is the callback in full: called with the two
    arguments it makes its calls to the registry, in order, then returns
    ([None]) or throws ([Some e]).  Its calls of [executeQuery] and
    [executeMutation] do not touch the registry and are left out. *)
#[warnings="-register-all"]
Inductive Reentry : Type :=
| Subscribes (id : string)
             (behave : list string -> JSON -> list Reentry * option Reason)
    (* [client.subscribe(callback)], [id] being what [uuid.v4()] returned *)
| Unsubscribes (id : string).
    (* [client.unsubscribe(id)] *)

Definition Observer : Type :=
  list string -> JSON -> list Reentry * option Reason.

(** The registry after one call of [subscribe] or [unsubscribe]. *)
Definition reenter (subs : list (string * Observer)) (r : Reentry)
  : list (string * Observer) :=
  match r with
  | Subscribes id callback => assign subs id callback
  | Unsubscribes id => remove subs id
  end.

(** The registry that a history of such calls builds from [{}]. *)
Definition registry_after (history : list Reentry)
  : list (string * Observer) :=
  foldl reenter [] history.

(** The loop of [updateSubscribers] over the live registry.  The keys [ks]
    are those the object had when the loop began; a key deleted before its
    turn is passed over, as the language has it; the callback called is the
    one the registry holds at that moment; what the callback throws ends
    the loop.  Keys added while the loop runs are not visited: engines keep
    to the keys they found. *)
Fixpoint live_for_in (ks : list string) (typenames : list string)
    (changes : JSON) (subs : list (string * Observer))
  : Completion unit * list (string * Observer)
    * list (string * list string * JSON) :=
  match ks with
  | [] => (Normal tt, subs, [])
  | sub :: ks' =>
      match own subs sub with
      | None => live_for_in ks' typenames changes subs
      | Some callback =>
          let '(script, outcome) := callback typenames changes in
          let subs' := foldl reenter subs script in
          match outcome with
          | Some e => (Throw e, subs', [(sub, typenames, changes)])
          | None =>
              let '(r, subs'', called) :=
                live_for_in ks' typenames changes subs' in
              (r, subs'', (sub, typenames, changes) :: called)
          end
      end
  end.

(** [updateSubscribers(typenames, changes)] on the live registry: the
    completion, the registry left behind and the calls made, in order. *)
Definition updateSubscribers_live (typenames : list string) (changes : JSON)
    (subs : list (string * Observer)) :=
  live_for_in (keys subs) typenames changes subs.

(** A [Callback] as an [Observer]: it makes no call to the registry. *)
Definition aloof (callback : Callback) : Observer :=
  fun typenames changes => ([], callback typenames changes).

(** ** Collaborators and values to run the client on *)

(** A digest: djb2 over the characters, kept to 32 bits, in decimal. *)
Definition djb2 (s : string) : string :=
  pretty (foldl (fun h ch => N.land (N.lxor (h * 33) (Ascii.N_of_ascii ch))
                                    (2 ^ 32 - 1))
                5381 (String.list_ascii_of_string s))%N.

(** Modelled from the spec: the extractor of typenames (section 4.2), which
    is not under src/.  Depth first, an array gives what its items give, an
    object gives the string held under ["__typename"], if any, and what the
    values of its other properties give; strings, numbers, booleans and
    [null] give nothing. *)
Fixpoint typenames_in (v : JSON) : list string :=
  match v with
  | JArray items => concat (map typenames_in items)
  | JObject props =>
      concat (map (fun kv => let '(k, w) := kv in
                             if String.eqb k "__typename" then
                               match w with
                               | JString t => [t]
                               | _ => []
                               end
                             else typenames_in w) props)
  | _ => []
  end.

(** The typenames found, each once. *)
Definition extract (v : JSON) : list string := remove_dups (typenames_in v).

(** A printer of numbers for requests that hold no number. *)
Definition no_number (x : float) : string := "0".

Definition api : IClientOptions :=
  {| opt_url := Some "https://api.test/graphql"; opt_fetchOptions := None |}.

(** The client [new Client(api)] builds. *)
Definition fresh : Client :=
  {| url := "https://api.test/graphql"; store := ∅;
     fetchOptions := Static []; subscriptions := [] |}.

Definition user_query : IQuery :=
  {| query := "{ user { name } }"; variables := Some (JObject []) |}.

Definition user (name : string) : JSON :=
  JObject [("user", JObject [("__typename", JString "User");
                             ("name", JString name)])].

(** [{ data: { user: { __typename: "User", name } } }] *)
Definition user_response (name : string) : JSON :=
  JObject [("data", user name)].

Definition rename_mutation : IMutation :=
  {| query := "mutation($name: String) { user(name: $name) { name } }";
     variables := Some (JObject [("name", JString "Bob")]) |}.

(** Two observers that return, one that throws. *)
Definition quiet : Callback := fun _ _ => None.
Definition failing : Callback := fun _ _ => Some (External "observer").

Definition id1 : string := "110ec58a-a0f2-4ac4-8393-c866d813b8d1".
Definition id2 : string := "7d444840-9dc0-41d1-b245-5ffdce74fad2".



(** A first query and its answer, which leave the cache warm. *)
Definition warm_up : list Action :=
  [DoExecuteQuery user_query false; Arrive 0 (Parsed (user_response "Ann"))].

(** The same two variables, assigned in either order. *)
Definition paged_query (first_key second_key : string) : IQuery :=
  let value k := if String.eqb k "first" then JString "10" else JString "X" in
  {| query := "query($first: String, $after: String) { items }";
     variables := Some (JObject [(first_key, value first_key);
                                 (second_key, value second_key)]) |}.

Section Methods.
(** Modelled from the spec: [hashString] of [./hash] is not under src/; the
    spec contracts it as a pure, deterministic and total map from a string
    to a textual digest.  The digest is used as a property key of the
    store and is taken never to name a property of [Object.prototype]. *)
Variable hashString : string -> string.

(** Modelled from the spec: [gankTypeNamesFromResponse] of
    [../modules/typenames] is not under src/; the spec contracts it as a
    pure and total function from a response value to the list of the
    distinct typenames found in it. *)
Variable gankTypeNamesFromResponse : JSON -> list string.

(** Number::toString, as in [stringify]. *)
Variable Number_toString : float -> string.

(** [this.subscriptions[sub](typenames, changes)], the registry being
    [subs]: calling [undefined] is a TypeError. *)
Definition notify (subs : list (string * Callback))
    (typenames : list string) (changes : JSON) (sub : string) : M unit :=
  match own subs sub with
  | Some callback => call sub callback typenames changes
  | None => throw TypeError
  end.

(** [updateSubscribers(typenames, changes)]: every enumerated key is an own
    property of a plain object, so the [hasOwnProperty] test passes. *)
Definition updateSubscribers (typenames : list string) (changes : JSON)
  : M unit :=
  c ← this;
  for_in (keys (subscriptions c)) (notify (subscriptions c) typenames changes).

(** [subscribe(callback)], where [id] is what [uuid.v4()] returned: a
    string of hexadecimal digits and dashes, never an array index. *)
Definition subscribe (id : string) (callback : Callback) : M string :=
  c ← this;
  subscriptions_set (assign (subscriptions c) id callback);;
  mret id.

(** [unsubscribe(id)] *)
Definition unsubscribe (id : string) : M unit :=
  c ← this;
  subscriptions_set (remove (subscriptions c) id).

(** [JSON.stringify({ query, variables })]: a property whose value is
    [undefined] is left out. *)
Definition body_of (queryObject : IQuery) : string :=
  stringify Number_toString
    (JObject (("query", JString (query queryObject))
              :: match variables queryObject with
                 | Some v => [("variables", v)]
                 | None => []
                 end)).

(** The call to [fetch], the same in both methods. *)
Definition post (body : string) : M unit :=
  c ← this;
  let fetchOptions :=
    match fetchOptions c with
    | Provider provide => provide tt
    | Static options => options
    end in
  emit (Fetch (url c)
          (spread [("body", JString body);
                   ("headers",
                    JObject [("Content-Type", JString "application/json")]);
                   ("method", JString "POST")]
                  fetchOptions)).

(** [executeQuery], the promise executor: it ends with the promise resolved
    from the cache or with [fetch] called. *)
Definition executeQuery_executor (queryObject : IQuery) (skipCache : bool)
  : M Started :=
  let body := body_of queryObject in
  let hash := hashString body in
  c ← this;
  let miss := post body;; mret (Awaiting hash) in
  match store c !! hash with
  | Some cached =>
      if truthy cached && negb skipCache then
        let typeNames := gankTypeNamesFromResponse cached in
        mret (Served {| data := cached; typeNames := typeNames |})
      else miss
  | None => miss   (* [undefined && ...] is falsy *)
  end.

(** [executeQuery], the handler [response => { ... }]. *)
Definition executeQuery_then (hash : string) (response : JSON)
  : M (Settlement IQueryResponse) :=
  response_data ← eval (read response "data");
  let no_data := mret (Rejected NoData) in
  match response_data with
  | Some d =>
      if truthy d then
        let typeNames := gankTypeNamesFromResponse d in
        store_put hash d;;
        mret (Resolved {| data := d; typeNames := typeNames |})
      else no_data
  | None => no_data   (* [undefined] is falsy *)
  end.

(** [executeMutation], the promise executor. *)
Definition executeMutation_executor (mutationObject : IMutation) : M unit :=
  let body := body_of mutationObject in
  post body.

(** [executeMutation], the handler [response => { ... }]. *)
Definition executeMutation_then (response : JSON) : M (Settlement JSON) :=
  response_data ← eval (read response "data");
  let no_data := mret (Rejected NoData) in
  match response_data with
  | Some d =>
      if truthy d then
        let typeNames := gankTypeNamesFromResponse d in
        updateSubscribers typeNames response;;
        mret (Resolved d)
      else no_data
  | None => no_data   (* [undefined] is falsy *)
  end.

(** The rest of a promise chain once the transport has answered. *)
Definition settle {A} (handler : JSON -> M (Settlement A)) (a : Answer)
  : M (Settlement A) :=
  match a with
  | Parsed response => catch (handler response)
  | Failed e => mret (Rejected e)
  end.

(** A whole call with nothing else running in between: [a] is the
    transport's answer, consulted only if [fetch] was called. *)
Definition executeQuery (queryObject : IQuery) (skipCache : bool)
    (a : Answer) : M (Settlement IQueryResponse) :=
  started ← executeQuery_executor queryObject skipCache;
  match started with
  | Served r => mret (Resolved r)
  | Awaiting hash => settle (executeQuery_then hash) a
  end.

Definition executeMutation (mutationObject : IMutation) (a : Answer)
  : M (Settlement JSON) :=
  executeMutation_executor mutationObject;;
  settle executeMutation_then a.

(** One move of the system. *)
Definition perform (act : Action) (s : System) : System :=
  match act with
  | DoSubscribe id callback =>
      {| client := after (subscribe id callback) (client s);
         inflight := inflight s |}
  | DoUnsubscribe id =>
      {| client := after (unsubscribe id) (client s);
         inflight := inflight s |}
  | DoExecuteQuery queryObject skipCache =>
      match executeQuery_executor queryObject skipCache (client s) with
      | (Normal (Awaiting hash), c, _) =>
          {| client := c; inflight := inflight s ++ [QueryInflight hash] |}
      | (_, c, _) => {| client := c; inflight := inflight s |}
      end
  | DoExecuteMutation mutationObject =>
      {| client := after (executeMutation_executor mutationObject) (client s);
         inflight := inflight s ++ [MutationInflight] |}
  | Arrive n a =>
      match inflight s !! n with
      | Some (QueryInflight hash) =>
          {| client := after (settle (executeQuery_then hash) a) (client s);
             inflight := delete n (inflight s) |}
      | Some MutationInflight =>
          {| client := after (settle executeMutation_then a) (client s);
             inflight := delete n (inflight s) |}
      | None => s
      end
  end.

(** The system after the moves [acts], in order, from the client [c] with
    nothing in flight. *)
Definition run (acts : list Action) (c : Client) : System :=
  foldl (fun s act => perform act s) {| client := c; inflight := [] |} acts.

(** The states a client can be in: built by [new Client(opts)], then moved
    by calls and answers in any order. *)
Inductive reachable : System -> Prop :=
| reachable_new opts c :
    new_Client opts = Normal c ->
    reachable {| client := c; inflight := [] |}
| reachable_perform act s :
    reachable s -> reachable (perform act s).

(** Every cached value is truthy; no subscription id is held twice. *)
Definition store_truthy (c : Client) : Prop :=
  forall hash v, store c !! hash = Some v -> truthy v = true.

Definition wf (c : Client) : Prop :=
  store_truthy c /\ NoDup (keys (subscriptions c)).

(** The client with another cache. *)
Definition with_store (c : Client) (st : gmap string JSON) : Client :=
  mkClient (url c) st (fetchOptions c) (subscriptions c).

(** The calls made to subscribed callbacks, among the events of a run. *)
Definition calls (evs : list Event) : list (string * list string * JSON) :=
  omap (fun ev => match ev with
                  | Call sub typenames changes => Some (sub, typenames, changes)
                  | Fetch _ _ => None
                  end) evs.

Definition fetches (evs : list Event) : list (string * Props) :=
  omap (fun ev => match ev with
                  | Fetch to init => Some (to, init)
                  | Call _ _ _ => None
                  end) evs.

(** [executeMutation], the handler [response => { ... }] and the [.catch]
    after it, on the live registry: how the promise settles, the registry
    left behind, and the calls made to callbacks. *)
Definition executeMutation_then_live (response : JSON)
    (subs : list (string * Observer))
  : Settlement JSON * list (string * Observer)
    * list (string * list string * JSON) :=
  match read response "data" with
  | Throw e => (Rejected e, subs, [])
  | Normal (Some d) =>
      if truthy d then
        let typeNames := gankTypeNamesFromResponse d in
        match updateSubscribers_live typeNames response subs with
        | (Normal _, subs', called) => (Resolved d, subs', called)
        | (Throw e, subs', called) => (Rejected e, subs', called)
        end
      else (Rejected NoData, subs, [])
  | Normal None => (Rejected NoData, subs, [])
  end.

(** ** Objects used as maps *)

Lemma own_remove_eq {V} (o : list (string * V)) k : own (remove o k) k = None.
Proof.
  induction o as [|[k' v] o IH]; simpl; [done|].
  destruct (String.eqb_spec k' k) as [->|Hne]; simpl; [done|].
  by rewrite (proj2 (String.eqb_neq k' k) Hne).
Qed.

Lemma own_remove_ne {V} (o : list (string * V)) k k' :
  k' <> k -> own (remove o k) k' = own o k'.
Proof.
  intros Hne. induction o as [|[k0 v] o IH]; simpl; [done|].
  destruct (String.eqb_spec k0 k) as [->|Hk]; simpl.
  - rewrite IH. by rewrite (proj2 (String.eqb_neq k k') (not_eq_sym Hne)).
  - by rewrite IH.
Qed.

Lemma remove_absent {V} (o : list (string * V)) k :
  own o k = None -> remove o k = o.
Proof.
  induction o as [|[k' v] o IH]; simpl; [done|].
  destruct (String.eqb_spec k' k); [done|]. intros H. by rewrite IH.
Qed.

Lemma remove_remove {V} (o : list (string * V)) k :
  remove (remove o k) k = remove o k.
Proof. apply remove_absent, own_remove_eq. Qed.

Lemma keys_remove {V} (o : list (string * V)) k :
  keys (remove o k) = filter (fun k' => k' <> k) (keys o).
Proof.
  unfold keys. induction o as [|[k' v] o IH]; simpl; [done|].
  destruct (String.eqb_spec k' k) as [->|Hne].
  - rewrite filter_cons_False by (simpl; tauto). done.
  - rewrite filter_cons_True by done. simpl. by rewrite IH.
Qed.

Lemma keys_assign {V} (o : list (string * V)) k v :
  keys (assign o k v) = if decide (k ∈ keys o) then keys o else keys o ++ [k].
Proof.
  unfold keys. induction o as [|[k' v'] o IH]; cbn [assign map fst].
  - case_decide as H; [by apply not_elem_of_nil in H|done].
  - destruct (String.eqb_spec k' k) as [->|Hne]; cbn [map fst].
    + rewrite decide_True; [done|]. apply list_elem_of_here.
    + rewrite IH. destruct (decide (k ∈ map fst o)) as [Hin|Hin].
      * rewrite decide_True; [done|]. by apply list_elem_of_further.
      * rewrite decide_False; [done|].
        intros [?|?]%elem_of_cons; congruence.
Qed.

Lemma own_Some_elem_of {V} (o : list (string * V)) k v :
  own o k = Some v -> (k, v) ∈ o.
Proof.
  induction o as [|[k' v'] o IH]; simpl; [done|].
  destruct (String.eqb_spec k' k) as [->|Hne].
  - intros [= ->]. apply list_elem_of_here.
  - intros H. apply list_elem_of_further, IH, H.
Qed.

Lemma own_is_Some {V} (o : list (string * V)) k :
  k ∈ keys o -> is_Some (own o k).
Proof.
  unfold keys. induction o as [|[k' v'] o IH]; simpl.
  - intros H. by apply not_elem_of_nil in H.
  - destruct (String.eqb_spec k' k); [eauto|].
    intros [?|?]%elem_of_cons; [congruence|auto].
Qed.

Lemma own_NoDup {V} (o : list (string * V)) k v :
  NoDup (keys o) -> (k, v) ∈ o -> own o k = Some v.
Proof.
  unfold keys. induction o as [|[k' v'] o IH]; simpl.
  - intros _ H. by apply not_elem_of_nil in H.
  - intros [Hnotin Hnd]%NoDup_cons [Heq|Hin]%elem_of_cons.
    + injection Heq as -> ->. by rewrite String.eqb_refl.
    + destruct (String.eqb_spec k' k) as [->|Hne]; [|by apply IH].
      exfalso. apply Hnotin.
      apply list_elem_of_fmap. by exists (k, v).
Qed.

(** ** What single statements do *)

Lemma call_run sub callback typenames changes c :
  call sub callback typenames changes c =
    (match callback typenames changes with
     | None => Normal tt
     | Some e => Throw e
     end, c, [Call sub typenames changes]).
Proof.
  unfold call, mbind, M_bind, emit, mret, M_ret, throw.
  by destruct (callback typenames changes).
Qed.

Lemma updateSubscribers_unfold typenames changes c :
  updateSubscribers typenames changes c =
    for_in (keys (subscriptions c))
           (notify (subscriptions c) typenames changes) c.
Proof.
  unfold updateSubscribers, mbind, M_bind, this.
  destruct (for_in _ _ c) as [[r c'] evs]. done.
Qed.

Lemma notify_run subs typenames changes sub c :
  notify subs typenames changes sub c =
    match own subs sub with
    | Some callback =>
        (match callback typenames changes with
         | None => Normal tt
         | Some e => Throw e
         end, c, [Call sub typenames changes])
    | None => (Throw TypeError, c, [])
    end.
Proof.
  unfold notify. destruct (own subs sub); [apply call_run|done].
Qed.

(** The loop leaves the client as it found it, and calls the callbacks of
    a first stretch of the keys, each with the same two arguments. *)
Lemma for_in_notify subs typenames changes ks c :
  (for_in ks (notify subs typenames changes) c).1.2 = c /\
  exists n,
    (for_in ks (notify subs typenames changes) c).2 =
      map (fun sub => Call sub typenames changes) (take n ks).
Proof.
  induction ks as [|k ks [IHc [n IHn]]]; simpl.
  - split; [done|]. by exists 0.
  - unfold mbind, M_bind. rewrite notify_run.
    destruct (own subs k) as [cb|]; [|split; [done|by exists 0]].
    destruct (cb typenames changes) as [e|]; [split; [done|by exists 1]|].
    destruct (for_in ks _ c) as [[r c2] evs2]; simpl in *. subst c2 evs2.
    split; [done|]. by exists (S n).
Qed.

(** When every callback returns, the loop runs to its end. *)
Lemma for_in_notify_returns (subs : list (string * Callback))
    typenames changes ks c :
  Forall (fun kv => kv.2 typenames changes = None) subs ->
  ks ⊆ keys subs ->
  for_in ks (notify subs typenames changes) c =
    (Normal tt, c, map (fun sub => Call sub typenames changes) ks).
Proof.
  intros Hret. induction ks as [|k ks IH]; intros Hks; simpl; [done|].
  unfold mbind, M_bind. rewrite notify_run.
  destruct (own_is_Some subs k) as [cb Hcb].
  { apply Hks, list_elem_of_here. }
  rewrite Hcb.
  apply own_Some_elem_of in Hcb.
  rewrite Forall_forall in Hret. specialize (Hret _ Hcb). simpl in Hret.
  rewrite Hret, IH; [done|]. intros x Hx. by apply Hks, list_elem_of_further.
Qed.

Lemma updateSubscribers_client typenames changes c :
  (updateSubscribers typenames changes c).1.2 = c.
Proof. rewrite updateSubscribers_unfold. apply for_in_notify. Qed.

Lemma executeQuery_executor_client queryObject skipCache c :
  (executeQuery_executor queryObject skipCache c).1.2 = c.
Proof.
  unfold executeQuery_executor, mbind, M_bind, this.
  destruct (store c !! _) as [cached|]; [destruct (truthy cached && _)|];
    done.
Qed.

Lemma executeMutation_then_client response c :
  (executeMutation_then response c).1.2 = c.
Proof.
  unfold executeMutation_then, mbind, M_bind, eval, mret, M_ret.
  destruct (read response "data") as [[d|]|e]; [|done..].
  destruct (truthy d); [|done].
  pose proof (updateSubscribers_client
                (gankTypeNamesFromResponse d) response c) as H.
  by destruct (updateSubscribers _ _ c) as [[[[]|e] c1] evs].
Qed.

Lemma catch_client {A} (m : M (Settlement A)) c :
  (catch m c).1.2 = (m c).1.2.
Proof. unfold catch. by destruct (m c) as [[[a|e] c1] evs]. Qed.

Lemma settle_executeMutation_client a c :
  (settle executeMutation_then a c).1.2 = c.
Proof.
  destruct a as [response|e]; simpl; [|done].
  rewrite catch_client. apply executeMutation_then_client.
Qed.

(** The handler of a query either stores a truthy [data] under its hash
    or leaves the client alone. *)
Lemma executeQuery_then_client hash response c :
  (executeQuery_then hash response c).1.2 = c \/
  exists d, truthy d = true /\
    (executeQuery_then hash response c).1.2 =
      mkClient (url c) (<[hash := d]> (store c)) (fetchOptions c)
               (subscriptions c).
Proof.
  unfold executeQuery_then, mbind, M_bind, eval, mret, M_ret, store_put.
  destruct (read response "data") as [[d|]|e]; [|by left..].
  destruct (truthy d) eqn:Hd; [|by left].
  right. by exists d.
Qed.

(** ** The invariant of reachable states *)

Lemma wf_new opts c : new_Client opts = Normal c -> wf c.
Proof.
  destruct opts as [o|]; [|done]. simpl.
  destruct (opt_url o) as [[|a u]|]; [done| |done].
  intros [= <-]. split.
  - intros hash v H. cbn [store] in H. by rewrite lookup_empty in H.
  - apply NoDup_nil_2.
Qed.

Lemma wf_subscribe id callback c :
  wf c -> wf (after (subscribe id callback) c).
Proof.
  intros [Hstore Hsubs]. split; [exact Hstore|].
  unfold after; simpl. rewrite keys_assign.
  case_decide as Hin; [done|].
  apply NoDup_app. split_and!; [done| |apply NoDup_singleton].
  intros x Hx ->%list_elem_of_singleton. done.
Qed.

Lemma wf_unsubscribe id c : wf c -> wf (after (unsubscribe id) c).
Proof.
  intros [Hstore Hsubs]. split; [exact Hstore|].
  unfold after; simpl. rewrite keys_remove. by apply NoDup_filter.
Qed.

Lemma wf_settle_query hash a c :
  wf c -> wf (after (settle (executeQuery_then hash) a) c).
Proof.
  intros [Hstore Hsubs]. unfold after.
  destruct a as [response|e]; simpl; [|done].
  rewrite catch_client.
  destruct (executeQuery_then_client hash response c)
    as [->|(d & Hd & ->)]; [done|].
  split; [|done]. intros h v. simpl.
  destruct (decide (hash = h)) as [->|Hne].
  - rewrite lookup_insert_eq. by intros [= <-].
  - rewrite lookup_insert_ne by done. apply Hstore.
Qed.

Lemma wf_perform act s : wf (client s) -> wf (client (perform act s)).
Proof.
  intros Hwf. destruct act as [id cb|id|q skip|m|n a]; simpl.
  - by apply wf_subscribe.
  - by apply wf_unsubscribe.
  - pose proof (executeQuery_executor_client q skip (client s)) as Hc.
    destruct (executeQuery_executor q skip (client s))
      as [[[[r|hash]|e] c'] evs]; simpl in *; by subst c'.
  - done.
  - destruct (inflight s !! n) as [[hash|]|]; simpl; [| |done].
    + by apply wf_settle_query.
    + unfold after. by rewrite settle_executeMutation_client.
Qed.

Lemma reachable_run opts acts c :
  new_Client opts = Normal c -> reachable (run acts c).
Proof.
  intros Hnew. unfold run.
  induction acts as [|act acts IH] using rev_ind; simpl.
  - by apply (reachable_new opts).
  - rewrite foldl_app. simpl. by apply reachable_perform.
Qed.

Lemma reachable_wf s : reachable s -> wf (client s).
Proof.
  induction 1 as [opts c Hnew|act s _ IH].
  - by apply (wf_new opts).
  - by apply wf_perform.
Qed.

(** ** The cache-hit path *)

Lemma executeQuery_executor_hit queryObject c cached :
  store c !! hashString (body_of queryObject) = Some cached ->
  truthy cached = true ->
  executeQuery_executor queryObject false c =
    (Normal (Served {| data := cached;
                       typeNames := gankTypeNamesFromResponse cached |}),
     c, []).
Proof.
  intros Hget Htruthy.
  unfold executeQuery_executor, mbind, M_bind, this, mret, M_ret.
  by rewrite Hget, Htruthy.
Qed.

Lemma executeQuery_executor_miss queryObject skipCache c :
  (forall cached,
      store c !! hashString (body_of queryObject) = Some cached ->
      truthy cached && negb skipCache = false) ->
  exists init,
    executeQuery_executor queryObject skipCache c =
      (Normal (Awaiting (hashString (body_of queryObject))), c,
       [Fetch (url c) init]).
Proof.
  intros Hmiss.
  unfold executeQuery_executor, mbind, M_bind, this, mret, M_ret.
  destruct (store c !! _) as [cached|] eqn:Hget.
  - rewrite (Hmiss cached eq_refl). eexists. reflexivity.
  - eexists. reflexivity.
Qed.

(** ** The cache *)

(** C1. In every reachable state whose cache holds an entry under the hash
    of the serialized request, [executeQuery] with [skipCache = false]
    resolves with that very entry as [data] and its extraction as
    [typeNames]; the run has no event, so [fetch] is not called, and the
    client is left as it was.  The transport's answer [a] is never
    consulted. *)
Theorem executeQuery_cache_hit s queryObject cached a :
  reachable s ->
  store (client s) !! hashString (body_of queryObject) = Some cached ->
  executeQuery queryObject false a (client s) =
    (Normal (Resolved {| data := cached;
                         typeNames := gankTypeNamesFromResponse cached |}),
     client s, []).
Proof.
  intros Hreach Hget.
  destruct (reachable_wf s Hreach) as [Htruthy _].
  unfold executeQuery, mbind, M_bind.
  rewrite (executeQuery_executor_hit _ _ cached Hget (Htruthy _ _ Hget)).
  done.
Qed.

(** C10. In every reachable state every cached value is truthy, so the
    truthiness of [this.store[hash]] is the presence of [hash] in the
    cache, and [executeQuery] without [skipCache] is served from the cache
    exactly when its hash is a key of the cache. *)
Theorem cache_values_truthy s :
  reachable s ->
  (forall hash v, store (client s) !! hash = Some v -> truthy v = true) /\
  (forall hash,
      from_option truthy false (store (client s) !! hash) = true <->
      is_Some (store (client s) !! hash)) /\
  (forall queryObject,
      (exists r, (executeQuery_executor queryObject false (client s)).1.1 =
                   Normal (Served r)) <->
      is_Some (store (client s) !! hashString (body_of queryObject))).
Proof.
  intros Hreach. destruct (reachable_wf s Hreach) as [Htruthy _].
  split_and!; [exact Htruthy| |].
  - intros hash. destruct (store (client s) !! hash) as [v|] eqn:Hget; simpl.
    + split; [eauto|]. intros _. by apply (Htruthy hash).
    + split; [done|]. by intros [? ?].
  - intros q. split.
    + intros [r Hr].
      destruct (store (client s) !! _) as [v|] eqn:Hget; [eauto|].
      destruct (executeQuery_executor_miss q false (client s)) as [init Hm].
      { intros cached Hc. congruence. }
      rewrite Hm in Hr. done.
    + intros [v Hget].
      rewrite (executeQuery_executor_hit _ _ v Hget (Htruthy _ _ Hget)).
      eauto.
Qed.

(** ** The registry *)

(** C9. [unsubscribe] returns normally for every id and every state: a
    second call with the same id, or a call with an id that is not
    registered, leaves the registry as it is, and whatever the id, every
    other subscription stays registered with its callback. *)
Theorem unsubscribe_total id c :
  (unsubscribe id c).1.1 = Normal tt /\
  (unsubscribe id c).2 = [] /\
  (own (subscriptions c) id = None -> after (unsubscribe id) c = c) /\
  after (unsubscribe id) (after (unsubscribe id) c) =
    after (unsubscribe id) c /\
  own (subscriptions (after (unsubscribe id) c)) id = None /\
  (forall id', id' <> id ->
      own (subscriptions (after (unsubscribe id) c)) id' =
        own (subscriptions c) id').
Proof.
  unfold after; simpl. split_and!; [done|done| | | |].
  - intros Habsent. rewrite (remove_absent _ _ Habsent). by destruct c.
  - by rewrite remove_remove.
  - apply own_remove_eq.
  - intros id' Hne. by apply own_remove_ne.
Qed.

(** ** Responses without data *)

(** C2. When the transport's response parses to [{}], the handler of
    [executeQuery] and the handler of [executeMutation] both reject with
    [{ message: 'No data' }], leave the client, hence the cache, as they
    found it, and make no call at all; the whole calls do the same, a
    query that is served from the cache apart, which has no response. *)
Theorem no_data_rejects :
  (forall hash c,
      settle (executeQuery_then hash) (Parsed (JObject [])) c =
        (Normal (Rejected NoData), c, [])) /\
  (forall c,
      settle executeMutation_then (Parsed (JObject [])) c =
        (Normal (Rejected NoData), c, [])) /\
  (forall queryObject skipCache c,
      let '(r, c', evs) :=
        executeQuery queryObject skipCache (Parsed (JObject [])) c in
      c' = c /\ calls evs = [] /\
      (fetches evs <> [] -> r = Normal (Rejected NoData))) /\
  (forall mutationObject c,
      let '(r, c', evs) :=
        executeMutation mutationObject (Parsed (JObject [])) c in
      r = Normal (Rejected NoData) /\ c' = c /\ calls evs = []).
Proof.
  split_and!; [done|done| |].
  - intros q skip c. unfold executeQuery, mbind, M_bind.
    unfold executeQuery_executor, mbind, M_bind, this, mret, M_ret.
    destruct (store c !! _) as [cached|];
      [destruct (truthy cached && negb skip)|]; simpl; done.
  - intros m c. done.
Qed.

(** ** Mutations and the cache *)

(** The loop does to any client what it does to one: its outcome and its
    calls are those of the registry and the arguments alone. *)
Lemma for_in_notify_frame subs typenames changes ks c c0 :
  for_in ks (notify subs typenames changes) c =
    ((for_in ks (notify subs typenames changes) c0).1.1, c,
     (for_in ks (notify subs typenames changes) c0).2).
Proof.
  induction ks as [|k ks IH]; simpl; [done|].
  unfold mbind, M_bind. rewrite !notify_run.
  destruct (own subs k) as [cb|]; [|done].
  destruct (cb typenames changes) as [e|]; [done|].
  rewrite IH. by destruct (for_in ks _ c0) as [[r c2] evs2].
Qed.

Lemma executeMutation_then_frame response c st :
  executeMutation_then response (with_store c st) =
    ((executeMutation_then response c).1.1, with_store c st,
     (executeMutation_then response c).2).
Proof.
  unfold executeMutation_then, mbind, M_bind, eval, mret, M_ret.
  destruct (read response "data") as [[d|]|e]; [|done..].
  destruct (truthy d); [|done].
  rewrite !updateSubscribers_unfold. cbn [with_store subscriptions].
  rewrite (for_in_notify_frame _ _ _ _ (with_store c st) c).
  by destruct (for_in _ _ c) as [[[[]|e] c1] evs].
Qed.

Lemma settle_executeMutation_frame a c st :
  settle executeMutation_then a (with_store c st) =
    ((settle executeMutation_then a c).1.1, with_store c st,
     (settle executeMutation_then a c).2).
Proof.
  destruct a as [response|e]; simpl; [|done].
  unfold catch. rewrite executeMutation_then_frame.
  by destruct (executeMutation_then response c) as [[[r|e] c1] evs].
Qed.

(** C8. Whatever the request, the answer of the transport and the outcome,
    [executeMutation] leaves the client, and with it the cache, exactly as it
    was, and it does not depend on the cache: run on any other cache, it
    settles the same way and makes the same calls.  This holds of the whole
    call and of its handler taken alone, when the answer arrives later. *)
Theorem executeMutation_frames_cache mutationObject a c :
  (executeMutation mutationObject a c).1.2 = c /\
  (settle executeMutation_then a c).1.2 = c /\
  (forall st,
      executeMutation mutationObject a (with_store c st) =
        ((executeMutation mutationObject a c).1.1, with_store c st,
         (executeMutation mutationObject a c).2)) /\
  (forall st,
      settle executeMutation_then a (with_store c st) =
        ((settle executeMutation_then a c).1.1, with_store c st,
         (settle executeMutation_then a c).2)).
Proof.
  pose proof (settle_executeMutation_client a c) as Hc.
  pose proof (settle_executeMutation_frame a c) as Hf.
  split_and!; [|exact Hc| |exact Hf].
  - unfold executeMutation, executeMutation_executor, post, mbind, M_bind,
      this, emit.
    by destruct (settle executeMutation_then a c) as [[r c1] evs].
  - intros st. specialize (Hf st).
    unfold executeMutation, executeMutation_executor, post, mbind, M_bind,
      this, emit.
    rewrite Hf. cbn [with_store url fetchOptions].
    by destruct (settle executeMutation_then a c) as [[r c1] evs].
Qed.

(** ** Responses with data *)

(** The handler of a query on a response whose [data] is truthy. *)
Lemma executeQuery_then_data hash response d c :
  read response "data" = Normal (Some d) ->
  truthy d = true ->
  settle (executeQuery_then hash) (Parsed response) c =
    (Normal (Resolved {| data := d;
                         typeNames := gankTypeNamesFromResponse d |}),
     with_store c (<[hash := d]> (store c)), []).
Proof.
  intros Hread Hd. simpl.
  unfold catch, executeQuery_then, mbind, M_bind, eval, mret, M_ret, store_put.
  by rewrite Hread, Hd.
Qed.

(** C6. With [skipCache = true] the executor of [executeQuery] calls [fetch]
    once, whatever the cache holds under the hash of the request; and when
    the response carries a [data] that passes the guard [if (response.data)],
    the handler puts that [data] in the cache under the hash, over any entry
    that is there, whether the answer comes at once or after other calls
    have changed the client. *)
Theorem skipCache_refetches queryObject response d c :
  read response "data" = Normal (Some d) ->
  truthy d = true ->
  let hash := hashString (body_of queryObject) in
  let r := {| data := d; typeNames := gankTypeNamesFromResponse d |} in
  (exists init,
      executeQuery_executor queryObject true c =
        (Normal (Awaiting hash), c, [Fetch (url c) init])) /\
  (forall c',
      settle (executeQuery_then hash) (Parsed response) c' =
        (Normal (Resolved r), with_store c' (<[hash := d]> (store c')), [])) /\
  (exists init,
      executeQuery queryObject true (Parsed response) c =
        (Normal (Resolved r), with_store c (<[hash := d]> (store c)),
         [Fetch (url c) init])) /\
  store (after (executeQuery queryObject true (Parsed response)) c) !! hash =
    Some d.
Proof.
  intros Hread Hd hash r.
  destruct (executeQuery_executor_miss queryObject true c) as [init Hex].
  { intros cached _. apply andb_false_r. }
  assert (Hthen : forall c',
             settle (executeQuery_then hash) (Parsed response) c' =
               (Normal (Resolved r),
                with_store c' (<[hash := d]> (store c')), [])).
  { intros c'. by apply executeQuery_then_data. }
  assert (Hall : executeQuery queryObject true (Parsed response) c =
                   (Normal (Resolved r),
                    with_store c (<[hash := d]> (store c)),
                    [Fetch (url c) init])).
  { unfold executeQuery, mbind, M_bind. rewrite Hex. fold hash.
    by rewrite Hthen. }
  split_and!; [by exists init|exact Hthen|by exists init|].
  unfold after. rewrite Hall. cbn [with_store store fst snd].
  apply lookup_insert_eq.
Qed.

(** C3, amended. For every response the handler of [executeQuery] is given:
    when its [data] is present and truthy, [data] is stored in the cache
    under the request's hash and the promise resolves with
    [{ data, typeNames: extract(data) }]; the promise is rejected with
    [{ message: 'No data' }] exactly when the response is not [null] and its
    [data] is absent or falsy ([null], [false], [0], [NaN] or the empty string), and
    then the cache is left alone. *)
Theorem executeQuery_then_outcome hash response c :
  (forall d,
      read response "data" = Normal (Some d) -> truthy d = true ->
      settle (executeQuery_then hash) (Parsed response) c =
        (Normal (Resolved {| data := d;
                             typeNames := gankTypeNamesFromResponse d |}),
         with_store c (<[hash := d]> (store c)), [])) /\
  ((settle (executeQuery_then hash) (Parsed response) c).1.1 =
     Normal (Rejected NoData) <->
   exists r, read response "data" = Normal r /\
             from_option truthy false r = false) /\
  ((settle (executeQuery_then hash) (Parsed response) c).1.1 =
     Normal (Rejected NoData) ->
   after (settle (executeQuery_then hash) (Parsed response)) c = c).
Proof.
  split; [intros d; apply executeQuery_then_data|].
  unfold after. simpl.
  unfold catch, executeQuery_then, mbind, M_bind, eval, mret, M_ret, store_put.
  destruct (read response "data") as [[d|]|e] eqn:Hread.
  - destruct (truthy d) eqn:Hd; simpl.
    + split; [|done]. split; [done|].
      intros (r & [= <-] & Hr). simpl in Hr. congruence.
    + split; [|done]. split; [|done]. intros _. by exists (Some d).
  - split; [|done]. split; [|done]. intros _. by exists None.
  - simpl. split.
    + split; [intros [= ->]|intros (r & [=] & _)].
      unfold NoData in Hread. destruct response; simpl in Hread; congruence.
    + done.
Qed.

(** ** Mutations and the registry *)

Lemma calls_map_Call typenames changes ks :
  calls (map (fun sub => Call sub typenames changes) ks) =
    map (fun sub => (sub, typenames, changes)) ks.
Proof. unfold calls. induction ks as [|k ks IH]; simpl; [done|]. by f_equal. Qed.

(** The events of the handler of a mutation: none, or calls for a first
    stretch of the registry's keys, all with the extraction of [data] and the
    response. *)
Lemma executeMutation_then_events response c :
  (executeMutation_then response c).2 = [] \/
  exists d n,
    read response "data" = Normal (Some d) /\ truthy d = true /\
    (executeMutation_then response c).2 =
      map (fun sub => Call sub (gankTypeNamesFromResponse d) response)
          (take n (keys (subscriptions c))).
Proof.
  unfold executeMutation_then, mbind, M_bind, eval, mret, M_ret.
  destruct (read response "data") as [[d|]|e]; [|by left..].
  destruct (truthy d) eqn:Hd; [|by left].
  right. exists d.
  rewrite updateSubscribers_unfold.
  destruct (for_in_notify (subscriptions c) (gankTypeNamesFromResponse d)
              response (keys (subscriptions c)) c) as [_ [n Hn]].
  exists n. split_and!; [done..|].
  destruct (for_in _ _ c) as [[[[]|e] c1] evs]; simpl in *;
    [by rewrite app_nil_r|done].
Qed.

Lemma executeMutation_events mutationObject a c :
  calls (executeMutation mutationObject a c).2 =
    calls (settle executeMutation_then a c).2.
Proof.
  unfold executeMutation, executeMutation_executor, post, mbind, M_bind,
    this, emit.
  by destruct (settle executeMutation_then a c) as [[r c1] evs].
Qed.

Lemma settle_events {A} (handler : JSON -> M (Settlement A)) response c :
  (settle handler (Parsed response) c).2 = (handler response c).2.
Proof. simpl. unfold catch. by destruct (handler response c) as [[[r|e] ?] ?]. Qed.

(** C4, amended. In every call that [executeMutation] makes to a subscribed
    callback, the second argument is the whole parsed response of the
    transport, the object that holds [data], and not its [data] field; the
    first argument is the extraction of that [data]. *)
Theorem mutation_passes_response mutationObject response c :
  Forall (fun x : string * list string * JSON =>
            x.2 = response /\
            exists d, read x.2 "data" = Normal (Some d) /\ truthy d = true /\
                      x.1.2 = gankTypeNamesFromResponse d)
         (calls (executeMutation mutationObject (Parsed response) c).2).
Proof.
  rewrite executeMutation_events, settle_events.
  destruct (executeMutation_then_events response c)
    as [->|(d & n & Hread & Hd & ->)]; [apply Forall_nil_2|].
  rewrite calls_map_Call. apply Forall_forall.
  intros x (sub & -> & _)%list_elem_of_fmap. simpl. eauto.
Qed.

(** Whether it resolves or not, a mutation calls the callbacks in the order
    of the registry, each at most once, each with the same arguments: a
    callback that throws ends the loop. *)
Lemma executeMutation_calls_prefix mutationObject response c :
  exists n typenames,
    calls (executeMutation mutationObject (Parsed response) c).2 =
      take n (map (fun kv : string * Callback => (kv.1, typenames, response))
                  (subscriptions c)).
Proof.
  rewrite executeMutation_events, settle_events.
  destruct (executeMutation_then_events response c)
    as [->|(d & n & _ & _ & ->)]; [by exists 0, []|].
  exists n, (gankTypeNamesFromResponse d).
  rewrite calls_map_Call. unfold keys.
  rewrite <- (fmap_take fst), map_map. apply fmap_take.
Qed.

(** A mutation whose response carries a truthy [data] and whose observers
    all return resolves with [data]. *)
Lemma executeMutation_resolves mutationObject response d c :
  read response "data" = Normal (Some d) ->
  truthy d = true ->
  Forall (fun kv : string * Callback =>
            kv.2 (gankTypeNamesFromResponse d) response = None)
         (subscriptions c) ->
  (executeMutation mutationObject (Parsed response) c).1.1 =
    Normal (Resolved d).
Proof.
  intros Hread Hd Hret.
  unfold executeMutation, executeMutation_executor, post, mbind, M_bind,
    this, emit. simpl.
  unfold catch, executeMutation_then, mbind, M_bind, eval, mret, M_ret.
  rewrite Hread, Hd, updateSubscribers_unfold.
  by rewrite for_in_notify_returns.
Qed.

(** *** The live registry *)

Lemma own_fmap {V W} (f : V -> W) (o : list (string * V)) k :
  own (map (fun kv => (kv.1, f kv.2)) o) k = f <$> own o k.
Proof.
  induction o as [|[k' v] o IH]; cbn [map own fst snd]; [done|].
  by destruct (String.eqb k' k).
Qed.

Lemma keys_fmap {V W} (f : V -> W) (o : list (string * V)) :
  keys (map (fun kv => (kv.1, f kv.2)) o) = keys o.
Proof. unfold keys. rewrite map_map. by apply map_ext. Qed.


(** When every callback returns and none calls the registry, the loop
    calls the callback of every key and leaves the registry as it was. *)
Lemma live_for_in_aloof (subs : list (string * Observer))
    typenames changes ks :
  Forall (fun kv => kv.2 typenames changes = ([], None)) subs ->
  ks ⊆ keys subs ->
  live_for_in ks typenames changes subs =
    (Normal tt, subs, map (fun sub => (sub, typenames, changes)) ks).
Proof.
  intros Hquiet. induction ks as [|k ks IH]; intros Hks; cbn [live_for_in map].
  - done.
  - destruct (own_is_Some subs k) as [o Ho].
    { apply Hks, list_elem_of_here. }
    rewrite Ho. apply own_Some_elem_of in Ho.
    rewrite Forall_forall in Hquiet. specialize (Hquiet _ Ho).
    cbn [snd] in Hquiet. rewrite Hquiet. cbn [foldl].
    rewrite IH; [done|]. intros x Hx. by apply Hks, list_elem_of_further.
Qed.

Lemma executeMutation_then_live_aloof response d
    (subs : list (string * Observer)) :
  read response "data" = Normal (Some d) ->
  truthy d = true ->
  Forall (fun kv => kv.2 (gankTypeNamesFromResponse d) response = ([], None))
         subs ->
  executeMutation_then_live response subs =
    (Resolved d, subs,
     map (fun kv => (kv.1, gankTypeNamesFromResponse d, response)) subs).
Proof.
  intros Hread Hd Hquiet. unfold executeMutation_then_live.
  rewrite Hread, Hd. unfold updateSubscribers_live.
  rewrite live_for_in_aloof by done. unfold keys. by rewrite map_map.
Qed.

(** On callbacks that make no call to the registry the live loop is the
    loop of [updateSubscribers]. *)
Lemma live_for_in_agrees (subs : list (string * Callback))
    typenames changes ks c :
  ks ⊆ keys subs ->
  live_for_in ks typenames changes
              (map (fun kv => (kv.1, aloof kv.2)) subs) =
    ((for_in ks (notify subs typenames changes) c).1.1,
     map (fun kv => (kv.1, aloof kv.2)) subs,
     calls (for_in ks (notify subs typenames changes) c).2).
Proof.
  induction ks as [|k ks IH]; intros Hks; cbn [live_for_in for_in]; [done|].
  unfold mbind, M_bind. rewrite notify_run, own_fmap.
  destruct (own_is_Some subs k) as [cb Hcb].
  { apply Hks, list_elem_of_here. }
  rewrite Hcb. cbn [fmap option_fmap option_map]. unfold aloof at 1.
  destruct (cb typenames changes) as [e|]; [done|]. cbn [foldl].
  rewrite IH by (intros x Hx; by apply Hks, list_elem_of_further).
  by destruct (for_in ks _ c) as [[r c2] evs2].
Qed.

(** So the handler of [executeMutation] above is the live handler on
    callbacks that make no call to the registry. *)
Lemma executeMutation_then_live_agrees response c :
  executeMutation_then_live
    response (map (fun kv => (kv.1, aloof kv.2)) (subscriptions c)) =
    (match (settle executeMutation_then (Parsed response) c).1.1 with
     | Normal r => r
     | Throw e => Rejected e
     end,
     map (fun kv => (kv.1, aloof kv.2)) (subscriptions c),
     calls (settle executeMutation_then (Parsed response) c).2).
Proof.
  unfold executeMutation_then_live. cbn [settle].
  unfold catch, executeMutation_then, mbind, M_bind, eval, mret, M_ret.
  destruct (read response "data") as [[d|]|e]; [|done..].
  destruct (truthy d); [|done].
  unfold updateSubscribers_live.
  rewrite keys_fmap, updateSubscribers_unfold.
  rewrite (live_for_in_agrees _ _ _ _ c) by done.
  destruct (for_in _ _ c) as [[[[]|e] c1] evs]; cbn [fst snd]; [|done].
  by rewrite app_nil_r.
Qed.


(** ** Serialization and the cache key *)

(** Induction on a value, with the property at hand for every item of an
    array and every property value of an object. *)
Lemma JSON_nested_ind (P : JSON -> Prop) :
  P JNull ->
  (forall b, P (JBool b)) ->
  (forall x, P (JNumber x)) ->
  (forall s, P (JString s)) ->
  (forall items, Forall P items -> P (JArray items)) ->
  (forall props, Forall (fun kv => P kv.2) props -> P (JObject props)) ->
  forall v, P v.
Proof.
  intros Hnull Hbool Hnum Hstr Harr Hobj.
  fix IH 1. intros [|b|x|s|items|props].
  - exact Hnull.
  - apply Hbool.
  - apply Hnum.
  - apply Hstr.
  - apply Harr. induction items as [|v items IHitems].
    + apply Forall_nil_2.
    + apply Forall_cons_2; [apply IH|exact IHitems].
  - apply Hobj. induction props as [|[k v] props IHprops].
    + apply Forall_nil_2.
    + apply Forall_cons_2; [apply IH|exact IHprops].
Qed.

(** Values that are the same, key order included, are equal. *)
Lemma same_eq v : forall w, same v w -> v = w.
Proof.
  induction v as [|b|x|s|items IH|props IH] using JSON_nested_ind;
    intros w Hsame; inversion Hsame as [| | | |? items' Hall|? props' Hall];
    subst; try done.
  - f_equal. clear Hsame. revert items' Hall.
    induction IH as [|v items Hv _ IHitems]; intros items' Hall;
      inversion Hall as [|? w ? items'' Hvw Hrest]; subst; [done|].
    f_equal; [by apply Hv|by apply IHitems].
  - f_equal. clear Hsame. revert props' Hall.
    induction IH as [|[k v] props Hv _ IHprops]; intros props' Hall;
      inversion Hall as [|? [k' w] ? props'' [Hk Hvw] Hrest]; subst; [done|].
    simpl in *. subst k'. f_equal; [f_equal; by apply Hv|by apply IHprops].
Qed.

Lemma same_request_eq q q' : same_request q q' -> q = q'.
Proof.
  destruct q as [qu va], q' as [qu' va']. intros [Hq Hv]; simpl in *.
  subst qu'. f_equal.
  destruct Hv as [v w Hvw|]; [|done]. f_equal. by apply same_eq.
Qed.

(** ** The order of keys shows in the body *)

Lemma append_cons x (a b : string) : String x a +:+ b = String x (a +:+ b).
Proof. reflexivity. Qed.

Lemma append_assoc (a b c : string) : (a +:+ b) +:+ c = a +:+ (b +:+ c).
Proof.
  induction a as [|x a IH]; [done|]. rewrite !append_cons. by f_equal.
Qed.

Lemma unescape_escape c r : unescape (escape c +:+ r) = Some (c, r).
Proof. destruct c as [[] [] [] [] [] [] [] []]; reflexivity. Qed.

(** A quoted string can be read back from the front of any text. *)
Lemma escaped_inj k : forall k' r r',
  escaped k +:+ String "034"%char r = escaped k' +:+ String "034"%char r' ->
  k = k' /\ r = r'.
Proof.
  induction k as [|c k IH]; intros [|c' k'] r r' Heq;
    cbn [escaped] in Heq.
  - by injection Heq as ->.
  - apply (f_equal unescape) in Heq.
    rewrite append_assoc, unescape_escape in Heq. done.
  - apply (f_equal unescape) in Heq.
    rewrite append_assoc, unescape_escape in Heq. done.
  - apply (f_equal unescape) in Heq.
    rewrite !append_assoc, !unescape_escape in Heq.
    injection Heq as -> Heq. by destruct (IH _ _ _ Heq) as [-> ->].
Qed.

Lemma quote_inj k k' r r' :
  quote k +:+ r = quote k' +:+ r' -> k = k' /\ r = r'.
Proof.
  unfold quote. cbv zeta. rewrite !append_cons, !append_assoc, !append_cons.
  intros [= Heq]. by apply escaped_inj.
Qed.

(** Two requests whose variables begin with different keys never have the
    same body: the order of the keys shows in what is hashed. *)
Lemma first_key_in_body text k v rest k' v' rest' :
  body_of {| query := text; variables := Some (JObject ((k, v) :: rest)) |} =
  body_of {| query := text; variables := Some (JObject ((k', v') :: rest')) |} ->
  k = k'.
Proof.
  unfold body_of. cbn [query variables stringify map String.concat].
  intros Heq. rewrite !append_assoc in Heq.
  do 8 apply String.app_inj in Heq.
  destruct (map _ rest), (map _ rest'); rewrite ?append_assoc in Heq;
    by apply quote_inj in Heq as [-> _].
Qed.

(** The same two variables in either order give two bodies. *)
Lemma key_order_in_body text k v k' v' :
  k <> k' ->
  body_of {| query := text;
             variables := Some (JObject [(k, v); (k', v')]) |} <>
  body_of {| query := text;
             variables := Some (JObject [(k', v'); (k, v)]) |}.
Proof. intros Hne Heq. by apply first_key_in_body in Heq. Qed.

(** What the executor awaits is the hash of the body, whatever the client
    holds. *)
Lemma executeQuery_executor_awaits q skipCache c hash :
  (executeQuery_executor q skipCache c).1.1 = Normal (Awaiting hash) ->
  hash = hashString (body_of q).
Proof.
  unfold executeQuery_executor, mbind, M_bind, this, mret, M_ret.
  destruct (store c !! _) as [cached|];
    [destruct (truthy cached && negb skipCache)|]; simpl; congruence.
Qed.

(** C5, amended. Two requests whose query strings are equal and whose
    variables hold the same key-value pairs in the same key order, at every
    depth, are given the same serialized body and the same hash by
    [executeQuery]: it runs the same way on both from the same state, and
    from any two states the two handlers are left with the same cache key. *)
Theorem same_request_same_hash q q' :
  same_request q q' ->
  body_of q = body_of q' /\
  hashString (body_of q) = hashString (body_of q') /\
  (forall skipCache c,
      executeQuery_executor q skipCache c =
        executeQuery_executor q' skipCache c) /\
  (forall skipCache skipCache' c c' hash hash',
      (executeQuery_executor q skipCache c).1.1 = Normal (Awaiting hash) ->
      (executeQuery_executor q' skipCache' c').1.1 = Normal (Awaiting hash') ->
      hash = hash').
Proof.
  intros Hsame. apply same_request_eq in Hsame as <-.
  split_and!; [done..|].
  intros skip skip' c c' hash hash' H H'.
  apply executeQuery_executor_awaits in H, H'. congruence.
Qed.

(** ** Further properties: the registry *)

Lemma own_assign_eq {V} (o : list (string * V)) k v :
  own (assign o k v) k = Some v.
Proof.
  induction o as [|[k' v'] o IH]; cbn [assign own].
  - by rewrite String.eqb_refl.
  - destruct (String.eqb_spec k' k) as [->|Hne]; cbn [own].
    + by rewrite String.eqb_refl.
    + by rewrite (proj2 (String.eqb_neq k' k) Hne).
Qed.

Lemma own_assign_ne {V} (o : list (string * V)) k k' v :
  k' <> k -> own (assign o k v) k' = own o k'.
Proof.
  intros Hne. induction o as [|[k0 v0] o IH]; cbn [assign own].
  - by rewrite (proj2 (String.eqb_neq k k') (not_eq_sym Hne)).
  - destruct (String.eqb_spec k0 k) as [->|Hk]; cbn [own].
    + by rewrite (proj2 (String.eqb_neq k k') (not_eq_sym Hne)).
    + by rewrite IH.
Qed.

Lemma remove_assign_fresh {V} (o : list (string * V)) k v :
  own o k = None -> remove (assign o k v) k = o.
Proof.
  induction o as [|[k' v'] o IH]; cbn [assign own remove].
  - by rewrite String.eqb_refl.
  - destruct (String.eqb_spec k' k) as [->|Hne]; [done|].
    intros Hfresh. cbn [remove].
    rewrite (proj2 (String.eqb_neq k' k) Hne). by rewrite IH.
Qed.

Lemma own_None_keys {V} (o : list (string * V)) k :
  own o k = None <-> k ∉ keys o.
Proof.
  split.
  - intros Hnone Hin. apply own_is_Some in Hin as [v Hv]. congruence.
  - intros Hnotin. destruct (own o k) as [v|] eqn:Hv; [|done].
    exfalso. apply Hnotin. apply own_Some_elem_of in Hv.
    unfold keys. apply list_elem_of_fmap. by exists (k, v).
Qed.

(** X1. [subscribe] returns the id it was given by [uuid.v4()], touches
    nothing but the registry, and leaves the callback readable under the
    id, every other id as it was.  A fresh id adds one subscription at the
    end, and [unsubscribe] of it brings the client back; an id already in
    use keeps its place and the number of subscriptions. *)
Theorem subscribe_registers id callback c :
  subscribe id callback c =
    (Normal id,
     mkClient (url c) (store c) (fetchOptions c)
              (assign (subscriptions c) id callback), []) /\
  own (subscriptions (after (subscribe id callback) c)) id = Some callback /\
  (forall id', id' <> id ->
      own (subscriptions (after (subscribe id callback) c)) id' =
        own (subscriptions c) id') /\
  (own (subscriptions c) id = None ->
   keys (subscriptions (after (subscribe id callback) c)) =
     keys (subscriptions c) ++ [id] /\
   after (unsubscribe id) (after (subscribe id callback) c) = c) /\
  (is_Some (own (subscriptions c) id) ->
   keys (subscriptions (after (subscribe id callback) c)) =
     keys (subscriptions c)).
Proof.
  unfold after; simpl. split_and!.
  - done.
  - apply own_assign_eq.
  - intros id' Hne. by apply own_assign_ne.
  - intros Hfresh. rewrite keys_assign, decide_False
      by by apply own_None_keys.
    split; [done|]. rewrite remove_assign_fresh by done. by destruct c.
  - intros [cb Hcb]. rewrite keys_assign, decide_True; [done|].
    destruct (decide (id ∈ keys (subscriptions c))) as [Hin|Hnotin]; [done|].
    apply own_None_keys in Hnotin. congruence.
Qed.

(** The ids a mutation calls are keys of the registry. *)
Lemma executeMutation_calls_registered mutationObject a c :
  Forall (fun x : string * list string * JSON =>
            x.1.1 ∈ keys (subscriptions c))
         (calls (executeMutation mutationObject a c).2).
Proof.
  rewrite executeMutation_events.
  destruct a as [response|e]; [|apply Forall_nil_2].
  rewrite settle_events.
  destruct (executeMutation_then_events response c)
    as [->|(d & n & _ & _ & ->)]; [apply Forall_nil_2|].
  rewrite calls_map_Call. apply Forall_forall.
  intros x (sub & -> & Hsub)%list_elem_of_fmap. cbn.
  eapply subseteq_take, Hsub.
Qed.

(** X2. Once [unsubscribe(id)] has run, no [executeMutation] calls a
    callback under [id], whatever the response and whether [id] was ever
    registered; nor does the handler of a mutation that was in flight when
    [unsubscribe] ran. *)
Theorem unsubscribed_never_called id mutationObject a c :
  Forall (fun x : string * list string * JSON => x.1.1 <> id)
         (calls (executeMutation mutationObject a
                                 (after (unsubscribe id) c)).2) /\
  Forall (fun x : string * list string * JSON => x.1.1 <> id)
         (calls (settle executeMutation_then a
                        (after (unsubscribe id) c)).2).
Proof.
  rewrite <- (executeMutation_events mutationObject). split;
    (eapply Forall_impl; [apply executeMutation_calls_registered|];
     intros x Hin Heq; cbv beta in Hin; rewrite Heq in Hin; revert Hin;
     unfold after; simpl; apply own_None_keys, own_remove_eq).
Qed.

Lemma assign_fresh {V} (o : list (string * V)) k v :
  own o k = None -> assign o k v = o ++ [(k, v)].
Proof.
  induction o as [|[k' v'] o IH]; cbn [assign own app]; [done|].
  destruct (String.eqb k' k); [done|]. intros Hfresh. by rewrite IH.
Qed.

(** X3. A callback subscribed under a fresh id is notified by the next
    data-bearing mutation during which every callback returns normally and
    none subscribes or unsubscribes: it is called once, after the callbacks
    that were there before, with the extraction of [data] and the whole
    response, and the promise resolves with [data]. *)
Theorem subscribed_is_notified (subs : list (string * Observer))
    id callback response d :
  own subs id = None ->
  read response "data" = Normal (Some d) ->
  truthy d = true ->
  let subs' := reenter subs (Subscribes id callback) in
  Forall (fun kv : string * Observer =>
            kv.2 (gankTypeNamesFromResponse d) response = ([], None))
         subs' ->
  executeMutation_then_live response subs' =
    (Resolved d, subs',
     map (fun kv : string * Observer =>
            (kv.1, gankTypeNamesFromResponse d, response)) subs
     ++ [(id, gankTypeNamesFromResponse d, response)]).
Proof.
  intros Hfresh Hread Hd subs' Hquiet.
  rewrite (executeMutation_then_live_aloof response d subs' Hread Hd Hquiet).
  subst subs'. cbn [reenter]. rewrite (assign_fresh _ _ _ Hfresh).
  by rewrite map_app.
Qed.

(** ** Further properties: construction and the call to [fetch] *)

(** X4. [new Client(opts)] throws exactly when [opts] is missing or holds
    no URL or an empty one, the message telling which; otherwise the client
    has that URL, the given [fetchOptions] or [{}], an empty cache and no
    subscription. *)
Theorem new_Client_outcome opts :
  (new_Client opts = Throw (Error "Please provide configuration object") <->
   opts = None) /\
  (new_Client opts =
     Throw (Error "Please provide a URL for your GraphQL API") <->
   exists o, opts = Some o /\ (opt_url o = None \/ opt_url o = Some "")) /\
  (forall c,
      new_Client opts = Normal c <->
      exists o u,
        opts = Some o /\ opt_url o = Some u /\ u <> "" /\
        c = {| url := u; store := ∅;
               fetchOptions := default (Static []) (opt_fetchOptions o);
               subscriptions := [] |}).
Proof.
  destruct opts as [o|]; cbn [new_Client].
  - destruct (opt_url o) as [[|a u]|] eqn:Hurl; split_and!.
    + split; [discriminate|discriminate].
    + split; [intros _; exists o; auto|done].
    + intros c. split; [discriminate|].
      intros (o' & u & [= <-] & Hu & Hne & _). congruence.
    + split; [discriminate|discriminate].
    + split; [discriminate|].
      intros (o' & [= <-] & [Hu|Hu]); congruence.
    + intros c. split.
      * intros [= <-]. by exists o, (String a u).
      * intros (o' & u' & [= <-] & Hu & _ & ->). congruence.
    + split; [discriminate|discriminate].
    + split; [intros _; exists o; auto|done].
    + intros c. split; [discriminate|].
      intros (o' & u & [= <-] & Hu & _). congruence.
  - split_and!; [done| |].
    + split; [discriminate|]. by intros (o & [=] & _).
    + intros c. split; [discriminate|]. by intros (o & u & [=] & _).
Qed.

Lemma own_app {V} (o o' : list (string * V)) k :
  own (o ++ o') k = match own o k with Some v => Some v | None => own o' k end.
Proof.
  induction o as [|[k' v'] o IH]; cbn [own app]; [done|].
  by destruct (String.eqb k' k).
Qed.

(** What [{...a, ...b}] holds under a key: what [b] holds under it, the
    last time if [b] names it twice, and else what [a] holds. *)
Lemma own_spread (a b : Props) k :
  own (spread a b) k =
    match own (reverse b) k with Some v => Some v | None => own a k end.
Proof.
  unfold spread. revert a.
  induction b as [|[k' v'] b IH]; intros a; cbn [foldl]; [done|].
  rewrite IH, reverse_cons, own_app. cbn [fst snd own].
  destruct (own (reverse b) k); [done|].
  destruct (String.eqb_spec k' k) as [->|Hne].
  - apply own_assign_eq.
  - apply own_assign_ne. congruence.
Qed.

(** X5. [executeMutation] calls [fetch] exactly once, on the client's URL;
    the options of the call hold, under each key, what [fetchOptions]
    holds under it (the provider being called anew), and else the
    defaults: the serialized request as [body], the JSON content type as
    [headers], [POST] as [method].  So a [headers] entry of [fetchOptions]
    replaces the content type. *)
Theorem executeMutation_fetches mutationObject a c :
  let options := match fetchOptions c with
                 | Provider provide => provide tt
                 | Static options => options
                 end in
  exists init,
    fetches (executeMutation mutationObject a c).2 = [(url c, init)] /\
    forall k,
      own init k =
        match own (reverse options) k with
        | Some v => Some v
        | None =>
            own [("body", JString (body_of mutationObject));
                 ("headers",
                  JObject [("Content-Type", JString "application/json")]);
                 ("method", JString "POST")] k
        end.
Proof.
  intros options. eexists. split.
  - unfold executeMutation, executeMutation_executor, post, mbind, M_bind,
      this, emit.
    assert (Hnone : fetches (settle executeMutation_then a c).2 = []).
    { destruct a as [response|e]; [|done]. rewrite settle_events.
      destruct (executeMutation_then_events response c)
        as [->|(d & n & _ & _ & ->)]; [done|].
      generalize (take n (keys (subscriptions c))) as ks.
      induction ks as [|k ks IH]; [done|exact IH]. }
    destruct (settle executeMutation_then a c) as [[r c1] evs].
    cbn in Hnone |- *. unfold fetches in Hnone |- *. cbn. by rewrite Hnone.
  - intros k. apply own_spread.
Qed.

(** ** Further properties: queries *)

(** How the handler of a query settles: it stores a truthy [data] and
    resolves with it, or rejects and leaves the client alone. *)
Lemma settle_query_cases hash a c :
  (exists response d,
      a = Parsed response /\ read response "data" = Normal (Some d) /\
      truthy d = true /\
      settle (executeQuery_then hash) a c =
        (Normal (Resolved {| data := d;
                             typeNames := gankTypeNamesFromResponse d |}),
         with_store c (<[hash := d]> (store c)), [])) \/
  (exists e, settle (executeQuery_then hash) a c = (Normal (Rejected e), c, [])).
Proof.
  destruct a as [response|e]; [|right; by exists e].
  destruct (read response "data") as [[d|]|e] eqn:Hread.
  - destruct (truthy d) eqn:Hd.
    + left. exists response, d. split_and!; [done..|].
      by apply executeQuery_then_data.
    + right. exists NoData. cbn [settle].
      unfold catch, executeQuery_then, mbind, M_bind, eval, mret, M_ret.
      by rewrite Hread, Hd.
  - right. exists NoData. cbn [settle].
    unfold catch, executeQuery_then, mbind, M_bind, eval, mret, M_ret.
    by rewrite Hread.
  - right. exists e. cbn [settle].
    unfold catch, executeQuery_then, mbind, M_bind, eval, mret, M_ret.
    by rewrite Hread.
Qed.

(** How a whole query runs: served from the cache, or sent to the
    transport and settled by the handler. *)
Lemma executeQuery_cases queryObject skipCache a c :
  let hash := hashString (body_of queryObject) in
  (exists cached,
      store c !! hash = Some cached /\ truthy cached = true /\
      skipCache = false /\
      executeQuery queryObject skipCache a c =
        (Normal (Resolved {| data := cached;
                             typeNames := gankTypeNamesFromResponse cached |}),
         c, [])) \/
  (exists init,
      executeQuery queryObject skipCache a c =
        ((settle (executeQuery_then hash) a c).1.1,
         (settle (executeQuery_then hash) a c).1.2,
         Fetch (url c) init :: (settle (executeQuery_then hash) a c).2)).
Proof.
  intros hash.
  assert (Hdec :
            (exists cached, store c !! hash = Some cached /\
                            truthy cached = true /\ skipCache = false) \/
            (forall cached, store c !! hash = Some cached ->
                            truthy cached && negb skipCache = false)).
  { destruct (store c !! hash) as [cached|]; [|by right].
    destruct (truthy cached) eqn:Hc, skipCache; eauto;
      right; intros ? [= <-]; by rewrite Hc. }
  destruct Hdec as [(cached & Hget & Hc & ->)|Hmiss].
  - left. exists cached. split_and!; [done..|].
    unfold executeQuery, mbind, M_bind.
    by rewrite (executeQuery_executor_hit _ _ cached Hget Hc).
  - right.
    destruct (executeQuery_executor_miss queryObject skipCache c Hmiss)
      as [init Hex].
    exists init. unfold executeQuery, mbind, M_bind. rewrite Hex. fold hash.
    by destruct (settle (executeQuery_then hash) a c) as [[r c1] evs].
Qed.

(** X6. Whatever the state, the flag and the answer, [executeQuery] calls no
    subscribed callback, calls [fetch] at most once and then on the
    client's URL, leaves the registry, the URL and the options as they
    are, and changes the cache at most under the hash of its own request. *)
Theorem executeQuery_frames queryObject skipCache a c :
  let done := executeQuery queryObject skipCache a c in
  calls done.2 = [] /\
  (fetches done.2 = [] \/ exists init, fetches done.2 = [(url c, init)]) /\
  subscriptions done.1.2 = subscriptions c /\
  url done.1.2 = url c /\
  fetchOptions done.1.2 = fetchOptions c /\
  (forall hash, hash <> hashString (body_of queryObject) ->
      store done.1.2 !! hash = store c !! hash).
Proof.
  intros done. subst done.
  destruct (executeQuery_cases queryObject skipCache a c)
    as [(cached & _ & _ & _ & ->)|[init ->]].
  - cbn. split_and!; auto.
  - destruct (settle_query_cases (hashString (body_of queryObject)) a c)
      as [(response & d & _ & _ & _ & ->)|[e ->]]; cbn.
    + split_and!; eauto. intros hash Hne. by rewrite lookup_insert_ne.
    + split_and!; eauto.
Qed.

(** X7. In a reachable state, a query that resolves, from the cache or from
    the transport, resolves with a truthy [data] and its extraction, and
    leaves that [data] in the cache under its hash: the same query without
    [skipCache], made next, resolves with the same result and does not call
    [fetch], whatever the transport would answer. *)
Theorem resolved_query_is_cached s queryObject skipCache a r :
  reachable s ->
  (executeQuery queryObject skipCache a (client s)).1.1 =
    Normal (Resolved r) ->
  let c' := after (executeQuery queryObject skipCache a) (client s) in
  typeNames r = gankTypeNamesFromResponse (data r) /\
  truthy (data r) = true /\
  store c' !! hashString (body_of queryObject) = Some (data r) /\
  (forall a', executeQuery queryObject false a' c' =
                (Normal (Resolved r), c', [])).
Proof.
  intros Hreach Hres c'. subst c'. unfold after.
  destruct (reachable_wf s Hreach) as [Htruthy _].
  assert (Hpost :
            typeNames r = gankTypeNamesFromResponse (data r) /\
            truthy (data r) = true /\
            store (executeQuery queryObject skipCache a (client s)).1.2
              !! hashString (body_of queryObject) = Some (data r)).
  { revert Hres.
    destruct (executeQuery_cases queryObject skipCache a (client s))
      as [(cached & Hget & Hc & _ & ->)|[init ->]]; cbn [fst snd].
    - by intros [= <-].
    - destruct (settle_query_cases (hashString (body_of queryObject)) a
                                   (client s))
        as [(response & d & _ & _ & Hd & ->)|[e ->]]; cbn [fst snd];
        [|done].
      intros [= <-]. cbn [data typeNames with_store store].
      split_and!; [done..|]. apply lookup_insert_eq. }
  destruct Hpost as (Htn & Hd & Hget). split_and!; [done..|].
  intros a'. unfold executeQuery at 1, mbind, M_bind.
  rewrite (executeQuery_executor_hit _ _ (data r) Hget Hd).
  destruct r as [d tn]. cbn in *. by subst tn.
Qed.

(** X8. When the transport fails with [e], [executeMutation] rejects with
    [e] itself and [executeQuery] does too, unless it was served from the
    cache; neither changes the client nor calls a callback. *)
Theorem transport_failure_propagates queryObject skipCache e c :
  (exists init,
      executeMutation queryObject (Failed e) c =
        (Normal (Rejected e), c, [Fetch (url c) init])) /\
  (let done := executeQuery queryObject skipCache (Failed e) c in
   done.1.2 = c /\ calls done.2 = [] /\
   (done.1.1 = Normal (Rejected e) \/
    exists cached,
      store c !! hashString (body_of queryObject) = Some cached /\
      skipCache = false /\ fetches done.2 = [] /\
      done.1.1 =
        Normal (Resolved {| data := cached;
                            typeNames := gankTypeNamesFromResponse cached |}))).
Proof.
  split; [eexists; reflexivity|].
  intros done. subst done.
  destruct (executeQuery_cases queryObject skipCache (Failed e) c)
    as [(cached & Hget & _ & Hskip & ->)|[init ->]]; cbn.
  - split_and!; [done..|]. right. by exists cached.
  - split_and!; [done..|]. by left.
Qed.

(** ** Further properties: the client over time *)

Lemma perform_executeQuery_client queryObject skipCache s :
  client (perform (DoExecuteQuery queryObject skipCache) s) = client s.
Proof.
  cbn [perform].
  pose proof (executeQuery_executor_client queryObject skipCache (client s))
    as Hc.
  by destruct (executeQuery_executor queryObject skipCache (client s))
    as [[[[r|hash]|e] c'] evs].
Qed.

(** What one move does to the cache. *)
Lemma perform_store_cases act s :
  store (client (perform act s)) = store (client s) \/
  exists n response hash d,
    act = Arrive n (Parsed response) /\
    inflight s !! n = Some (QueryInflight hash) /\
    read response "data" = Normal (Some d) /\ truthy d = true /\
    store (client (perform act s)) = <[hash := d]> (store (client s)).
Proof.
  destruct act as [id cb|id|q skip|m|n a].
  - by left.
  - by left.
  - left. by rewrite perform_executeQuery_client.
  - by left.
  - cbn [perform]. destruct (inflight s !! n) as [[hash|]|] eqn:Hn.
    + cbn [client]. unfold after.
      destruct (settle_query_cases hash a (client s))
        as [(response & d & -> & Hread & Hd & ->)|[e ->]]; [|by left].
      right. by exists n, response, hash, d.
    + left. cbn [client]. unfold after.
      by rewrite settle_executeMutation_client.
    + by left.
Qed.

(** X9. Of all the moves of the system, only the answer to a query in
    flight writes to the cache, and only when its [data] is truthy: then
    that [data] is put under the hash the query was sent with.  Calls of
    [subscribe], [unsubscribe], [executeQuery] and [executeMutation], and
    answers to mutations, leave the cache as it is. *)
Theorem store_written_by_answers_only act s :
  store (client (perform act s)) = store (client s) \/
  exists n response hash d,
    act = Arrive n (Parsed response) /\
    inflight s !! n = Some (QueryInflight hash) /\
    read response "data" = Normal (Some d) /\ truthy d = true /\
    store (client (perform act s)) = <[hash := d]> (store (client s)).
Proof. apply perform_store_cases. Qed.

Lemma perform_store_dom act s :
  dom (store (client s)) ⊆ dom (store (client (perform act s))).
Proof.
  destruct (perform_store_cases act s)
    as [->|(n & response & hash & d & _ & _ & _ & _ & ->)]; [done|].
  rewrite dom_insert_L. set_solver.
Qed.

(** X10. No sequence of calls and answers removes an entry from the cache:
    the hashes cached before are cached after. *)
Theorem cache_never_shrinks acts s :
  dom (store (client s)) ⊆
    dom (store (client (foldl (fun s act => perform act s) s acts))).
Proof.
  revert s. induction acts as [|act acts IH]; intros s; cbn [foldl]; [done|].
  etrans; [apply perform_store_dom|apply IH].
Qed.

Lemma perform_config act s :
  url (client (perform act s)) = url (client s) /\
  fetchOptions (client (perform act s)) = fetchOptions (client s) /\
  match act with
  | DoSubscribe id callback =>
      subscriptions (client (perform act s)) =
        assign (subscriptions (client s)) id callback
  | DoUnsubscribe id =>
      subscriptions (client (perform act s)) =
        remove (subscriptions (client s)) id
  | _ => subscriptions (client (perform act s)) = subscriptions (client s)
  end.
Proof.
  destruct act as [id cb|id|q skip|m|n a].
  - done.
  - done.
  - by rewrite perform_executeQuery_client.
  - done.
  - cbn [perform]. destruct (inflight s !! n) as [[hash|]|]; [| |done].
    + cbn [client]. unfold after.
      by destruct (settle_query_cases hash a (client s))
        as [(response & d & _ & _ & _ & ->)|[e ->]].
    + cbn [client]. unfold after.
      by rewrite settle_executeMutation_client.
Qed.

(** X11. The URL and the fetch options are those the client was built with,
    whatever calls and answers came since; and the registry is as the calls
    of [subscribe] and [unsubscribe] left it: queries, mutations and their
    answers do not touch it. *)
Theorem configuration_is_fixed acts s :
  let s' := foldl (fun s act => perform act s) s acts in
  url (client s') = url (client s) /\
  fetchOptions (client s') = fetchOptions (client s) /\
  subscriptions (client s') =
    foldl (fun subs act =>
             match act with
             | DoSubscribe id callback => assign subs id callback
             | DoUnsubscribe id => remove subs id
             | _ => subs
             end) (subscriptions (client s)) acts.
Proof.
  revert s. induction acts as [|act acts IH]; intros s; cbn [foldl]; [done|].
  destruct (IH (perform act s)) as (Hu & Hf & Hs).
  destruct (perform_config act s) as (Hu' & Hf' & Hs').
  split_and!; [congruence|congruence|].
  rewrite Hs. f_equal. by destruct act.
Qed.

(** X12. Two overlapping calls of [executeQuery] for the same request, not
    yet cached, both go to the transport, and the answer that arrives last
    is the one the cache keeps, whichever call was made first. *)
Theorem overlapping_queries_race s queryObject r1 d1 r2 d2 :
  store (client s) !! hashString (body_of queryObject) = None ->
  read r1 "data" = Normal (Some d1) -> truthy d1 = true ->
  read r2 "data" = Normal (Some d2) -> truthy d2 = true ->
  let hash := hashString (body_of queryObject) in
  let n := length (inflight s) in
  let once := perform (DoExecuteQuery queryObject false) s in
  let both := perform (DoExecuteQuery queryObject false) once in
  (exists init,
      executeQuery_executor queryObject false (client once) =
        (Normal (Awaiting hash), client s, [Fetch (url (client s)) init])) /\
  client both = client s /\
  inflight both = inflight s ++ [QueryInflight hash; QueryInflight hash] /\
  (let last := perform (Arrive n (Parsed r2))
                       (perform (Arrive n (Parsed r1)) both) in
   store (client last) !! hash = Some d2 /\ inflight last = inflight s) /\
  (let last := perform (Arrive n (Parsed r1))
                       (perform (Arrive (S n) (Parsed r2)) both) in
   store (client last) !! hash = Some d1 /\ inflight last = inflight s).
Proof.
  intros Hnone Hr1 Hd1 Hr2 Hd2 hash n once both.
  destruct (executeQuery_executor_miss queryObject false (client s))
    as [init Hmiss].
  { intros cached Hget. rewrite Hnone in Hget. discriminate. }
  fold hash in Hmiss.
  assert (Honce : once = {| client := client s;
                            inflight := inflight s ++ [QueryInflight hash] |}).
  { subst once. cbn [perform]. by rewrite Hmiss. }
  assert (Hboth : both = {| client := client s;
                            inflight := inflight s ++ [QueryInflight hash;
                                                       QueryInflight hash] |}).
  { subst both. rewrite Honce. cbn [perform client inflight].
    rewrite Hmiss. by rewrite <- app_assoc. }
  assert (Harrive : forall l c r d,
             read r "data" = Normal (Some d) -> truthy d = true ->
             l !! n = Some (QueryInflight hash) ->
             perform (Arrive n (Parsed r)) {| client := c; inflight := l |} =
               {| client := with_store c (<[hash := d]> (store c));
                  inflight := delete n l |}).
  { intros l c r d Hr Hd Hl. cbn [perform inflight client]. rewrite Hl.
    unfold after. by rewrite (executeQuery_then_data hash r d c Hr Hd). }
  assert (Harrive' : forall l c r d,
             read r "data" = Normal (Some d) -> truthy d = true ->
             l !! S n = Some (QueryInflight hash) ->
             perform (Arrive (S n) (Parsed r))
                     {| client := c; inflight := l |} =
               {| client := with_store c (<[hash := d]> (store c));
                  inflight := delete (S n) l |}).
  { intros l c r d Hr Hd Hl. cbn [perform inflight client]. rewrite Hl.
    unfold after. by rewrite (executeQuery_then_data hash r d c Hr Hd). }
  assert (Hl0 : forall rest,
             (inflight s ++ QueryInflight hash :: rest) !! n =
               Some (QueryInflight hash)).
  { intros rest. subst n. by rewrite list_lookup_middle. }
  assert (Hdel0 : forall rest,
             delete n (inflight s ++ QueryInflight hash :: rest) =
               inflight s ++ rest).
  { intros rest. subst n. by rewrite delete_middle. }
  split_and!.
  - exists init. by rewrite Honce.
  - by rewrite Hboth.
  - by rewrite Hboth.
  - cbn zeta. rewrite Hboth.
    rewrite (Harrive _ _ r1 d1 Hr1 Hd1 (Hl0 _)), Hdel0.
    rewrite (Harrive _ _ r2 d2 Hr2 Hd2 (Hl0 _)), Hdel0.
    cbn [client inflight with_store store]. rewrite app_nil_r.
    split; [apply lookup_insert_eq|done].
  - cbn zeta. rewrite Hboth.
    assert (Hl1 : (inflight s ++ [QueryInflight hash; QueryInflight hash])
                    !! S n = Some (QueryInflight hash)).
    { subst n. rewrite lookup_app_r by lia.
      by replace (S (length (inflight s)) - length (inflight s)) with 1
        by lia. }
    rewrite (Harrive' _ _ r2 d2 Hr2 Hd2 Hl1).
    assert (Hdel1 : delete (S n) (inflight s ++ [QueryInflight hash;
                                                 QueryInflight hash]) =
                      inflight s ++ [QueryInflight hash]).
    { subst n. clear. induction (inflight s) as [|x l IH]; cbn; [done|].
      by f_equal. }
    rewrite Hdel1.
    rewrite (Harrive _ _ r1 d1 Hr1 Hd1 (Hl0 _)), Hdel0.
    cbn [client inflight with_store store]. rewrite app_nil_r.
    split; [apply lookup_insert_eq|done].
Qed.

(** ** Further properties: the body of a request *)

Lemma body_query_inj q q' : body_of q = body_of q' -> query q = query q'.
Proof.
  unfold body_of. cbn [stringify map String.concat].
  destruct (variables q), (variables q');
    cbn [map String.concat]; intros Heq; rewrite !append_assoc in Heq;
    do 3 apply String.app_inj in Heq;
    by apply quote_inj in Heq as [-> _].
Qed.

(** X13. The query text can be read back from the body: two requests with
    different query strings are never given the same body, whatever their
    variables. *)
Theorem body_shows_query q q' :
  query q <> query q' -> body_of q <> body_of q'.
Proof. intros Hne Heq. by apply Hne, body_query_inj. Qed.

(** X14. For variables that are JSON values, with no property whose value
    is [undefined] or a function (such properties [JSON.stringify] leaves
    out, and [JSON] has none), the first key of the variables can be read
    back from the body: two requests whose variables begin with different
    keys are not given the same body, so the same variables assigned in
    another order make another request for the cache. *)
Theorem body_shows_first_key text k v rest text' k' v' rest' :
  k <> k' ->
  body_of {| query := text; variables := Some (JObject ((k, v) :: rest)) |} <>
  body_of {| query := text';
             variables := Some (JObject ((k', v') :: rest')) |}.
Proof.
  intros Hne Heq. apply Hne.
  pose proof (body_query_inj _ _ Heq) as Htext. cbn [query] in Htext.
  subst text'. by apply first_key_in_body in Heq.
Qed.

(** ** Further properties: a new client *)

(** What the executor of a query emits: nothing, or one call of [fetch] on
    the client's URL with the defaults overlaid by [fetchOptions]. *)
Lemma executeQuery_executor_events queryObject skipCache c :
  let options := match fetchOptions c with
                 | Provider provide => provide tt
                 | Static options => options
                 end in
  (executeQuery_executor queryObject skipCache c).2 = [] \/
  (executeQuery_executor queryObject skipCache c).2 =
    [Fetch (url c)
       (spread [("body", JString (body_of queryObject));
                ("headers",
                 JObject [("Content-Type", JString "application/json")]);
                ("method", JString "POST")] options)].
Proof.
  intros options.
  unfold executeQuery_executor, mbind, M_bind, this, mret, M_ret.
  destruct (store c !! _) as [cached|];
    [destruct (truthy cached && negb skipCache)|]; cbn; auto.
Qed.

(** X15. Every call of [fetch] that [executeQuery] makes goes to the
    client's URL with options that hold, under each key, what
    [fetchOptions] holds under it, and else the defaults: the serialized
    request as [body], the JSON content type as [headers], [POST] as
    [method]. *)
Theorem executeQuery_fetches queryObject skipCache a c :
  let options := match fetchOptions c with
                 | Provider provide => provide tt
                 | Static options => options
                 end in
  Forall (fun sent : string * Props =>
            sent.1 = url c /\
            forall k,
              own sent.2 k =
                match own (reverse options) k with
                | Some v => Some v
                | None =>
                    own [("body", JString (body_of queryObject));
                         ("headers",
                          JObject [("Content-Type",
                                    JString "application/json")]);
                         ("method", JString "POST")] k
                end)
         (fetches (executeQuery queryObject skipCache a c).2).
Proof.
  intros options.
  pose proof (executeQuery_executor_events queryObject skipCache c) as Hev.
  pose proof (executeQuery_executor_client queryObject skipCache c) as Hc.
  unfold executeQuery, mbind, M_bind.
  destruct (executeQuery_executor queryObject skipCache c)
    as [[[[r|hash]|e] c1] evs]; cbn [fst snd] in Hev, Hc; subst c1.
  - cbn [fst snd mret M_ret app].
    destruct Hev as [->| ->]; rewrite app_nil_r.
    + apply Forall_nil_2.
    + apply Forall_singleton. split; [done|]. intros k. apply own_spread.
  - destruct (settle_query_cases hash a c)
      as [(response & d & _ & _ & _ & ->)|[e ->]]; cbn [fst snd];
      rewrite app_nil_r;
      (destruct Hev as [->| ->];
       [apply Forall_nil_2
       |apply Forall_singleton; split; [done|]; intros k; apply own_spread]).
  - cbn [fst snd].
    destruct Hev as [->| ->];
      [apply Forall_nil_2
      |apply Forall_singleton; split; [done|]; intros k; apply own_spread].
Qed.

(** X16. On a client just built every [executeQuery] goes to the transport,
    with or without [skipCache], and no [executeMutation] calls a callback;
    the URL it posts to is not empty. *)
Theorem fresh_client_misses opts c queryObject skipCache a :
  new_Client opts = Normal c ->
  url c <> "" /\
  (exists init,
      executeQuery_executor queryObject skipCache c =
        (Normal (Awaiting (hashString (body_of queryObject))), c,
         [Fetch (url c) init])) /\
  calls (executeMutation queryObject a c).2 = [].
Proof.
  intros Hnew.
  destruct opts as [o|]; [|done]. cbn [new_Client] in Hnew.
  destruct (opt_url o) as [[|ch u]|]; [done| |done].
  injection Hnew as <-. split_and!.
  - done.
  - apply executeQuery_executor_miss. intros cached Hget.
    cbn [store] in Hget. by rewrite lookup_empty in Hget.
  - pose proof (executeMutation_calls_registered queryObject a
                  {| url := String ch u;
                     fetchOptions := default (Static []) (opt_fetchOptions o);
                     store := ∅; subscriptions := [] |}) as Hreg.
    destruct (calls _) as [|x xs]; [done|].
    apply Forall_cons in Hreg as [Hx _]. by apply not_elem_of_nil in Hx.
Qed.

End Methods.

(** ** The properties at work *)

Local Abbreviation warm := (run djb2 extract no_number warm_up fresh).
Local Abbreviation user_hash := (djb2 (body_of no_number user_query)).

(** The cache-hit theorem on the warm cache, the transport being down. *)
Lemma executeQuery_cache_hit_witness :
  store (client warm) !! user_hash = Some (user "Ann") /\
  executeQuery djb2 extract no_number user_query false
               (Failed (External "offline")) (client warm) =
    (Normal (Resolved {| data := user "Ann"; typeNames := ["User"] |}),
     client warm, []).
Proof.
  assert (Hget : store (client warm) !! user_hash = Some (user "Ann"))
    by (vm_compute; reflexivity).
  split; [exact Hget|].
  apply (executeQuery_cache_hit djb2 extract no_number warm user_query
           (user "Ann") (Failed (External "offline"))
           (reachable_run djb2 extract no_number (Some api) warm_up fresh
                          eq_refl)
           Hget).
Defined.

(** The invariant of the cache on the warm cache. *)
Lemma cache_values_truthy_witness :
  (forall hash v, store (client warm) !! hash = Some v -> truthy v = true) /\
  (forall hash,
      from_option truthy false (store (client warm) !! hash) = true <->
      is_Some (store (client warm) !! hash)) /\
  (forall queryObject,
      (exists r,
          (executeQuery_executor djb2 extract no_number queryObject false
                                 (client warm)).1.1 = Normal (Served r)) <->
      is_Some (store (client warm) !! djb2 (body_of no_number queryObject))).
Proof.
  apply (cache_values_truthy djb2 extract no_number warm
           (reachable_run djb2 extract no_number (Some api) warm_up fresh
                          eq_refl)).
Defined.

(** A forced refetch over the warm cache: the entry for Ann gives way to the
    one for Bob. *)
Lemma skipCache_refetches_witness :
  store (client warm) !! user_hash = Some (user "Ann") /\
  read (user_response "Bob") "data" = Normal (Some (user "Bob")) /\
  truthy (user "Bob") = true /\
  store (after (executeQuery djb2 extract no_number user_query true
                             (Parsed (user_response "Bob")))
               (client warm)) !! user_hash = Some (user "Bob").
Proof.
  split_and!; [vm_compute; reflexivity|reflexivity|reflexivity|].
  apply (skipCache_refetches djb2 extract no_number user_query
           (user_response "Bob") (user "Bob") (client warm) eq_refl eq_refl).
Defined.


(** The same request, written twice. *)
Lemma same_request_same_hash_witness :
  let q := paged_query "first" "after" in
  let q' := {| query := "query($first: String, $after: String) { items }";
               variables := Some (JObject [("first", JString "10");
                                           ("after", JString "X")]) |} in
  same_request q q' /\
  body_of no_number q = body_of no_number q' /\
  djb2 (body_of no_number q) = djb2 (body_of no_number q').
Proof.
  intros q q'.
  assert (Hsame : same_request q q').
  { split; [reflexivity|]. repeat constructor. }
  split; [exact Hsame|].
  destruct (same_request_same_hash djb2 extract no_number q q' Hsame)
    as (Hbody & Hhash & _).
  split; [exact Hbody|exact Hhash].
Defined.

(** C3, as stated, fails: the response [{ errors: [...], data: null }] has a
    [data] field, yet it is rejected with [{ message: 'No data' }] and
    nothing is stored; and a response that is [null], which has no [data]
    field, is rejected with a TypeError, not with [{ message: 'No data' }]. *)
Lemma falsy_data_counterexample :
  let refused :=
    JObject [("errors", JArray [JObject [("message", JString "Forbidden")]]);
             ("data", JNull)] in
  read refused "data" = Normal (Some JNull) /\
  settle (executeQuery_then extract user_hash) (Parsed refused) fresh =
    (Normal (Rejected NoData), fresh, []) /\
  read JNull "data" = Throw TypeError /\
  settle (executeQuery_then extract user_hash) (Parsed JNull) fresh =
    (Normal (Rejected TypeError), fresh, []).
Proof. intros refused. split_and!; reflexivity. Qed.

(** C4, as stated, fails: the one subscribed callback is called with the
    whole response [{ data: { user: ... } }] as its second argument, which
    is not the [data] field [{ user: ... }] the mutation resolves with. *)
Lemma second_argument_counterexample :
  let c := client (run djb2 extract no_number [DoSubscribe id1 quiet] fresh) in
  let done := executeMutation extract no_number rename_mutation
                              (Parsed (user_response "Bob")) c in
  read (user_response "Bob") "data" = Normal (Some (user "Bob")) /\
  done.1.1 = Normal (Resolved (user "Bob")) /\
  calls done.2 = [(id1, ["User"], user_response "Bob")] /\
  user_response "Bob" <> user "Bob".
Proof. intros c done. split_and!; [reflexivity..|discriminate]. Qed.

(** C5, as stated, fails: two requests with the same query string and the
    same two variables, assigned in the other order, are serialized to
    different bodies, and the bodies are hashed to different keys. *)
Lemma key_order_counterexample :
  let q := paged_query "first" "after" in
  let q' := paged_query "after" "first" in
  query q = query q' /\
  option_Forall2 same_pairs (variables q) (variables q') /\
  body_of no_number q <> body_of no_number q' /\
  djb2 (body_of no_number q) <> djb2 (body_of no_number q').
Proof.
  intros q q'. split_and!.
  - reflexivity.
  - constructor. apply perm_swap.
  - apply String.eqb_neq. vm_compute. reflexivity.
  - apply String.eqb_neq. vm_compute. reflexivity.
Qed.


(** A callback that throws: of two subscribed callbacks the first throws,
    the response carries data, the second callback is not called, and the
    promise is rejected with what the first callback threw. *)
Example failing_observer_ends_loop :
  let s := run djb2 extract no_number
               [DoSubscribe id1 failing; DoSubscribe id2 quiet] fresh in
  let done := executeMutation extract no_number rename_mutation
                              (Parsed (user_response "Bob")) (client s) in
  keys (subscriptions (client s)) = [id1; id2] /\
  calls done.2 = [(id1, ["User"], user_response "Bob")] /\
  done.1.1 = Normal (Rejected (External "observer")).
Proof. intros s done. split_and!; reflexivity. Qed.

(** The scenario of the spec, section 8: the first query goes to the
    transport once and fills the cache, the second is served from it. *)
Example end_to_end :
  let first := executeQuery djb2 extract no_number user_query false
                            (Parsed (user_response "Ann")) fresh in
  let second := executeQuery djb2 extract no_number user_query false
                             (Parsed (user_response "Ann")) first.1.2 in
  first.1.1 = Normal (Resolved {| data := user "Ann"; typeNames := ["User"] |})
  /\ length (fetches first.2) = 1
  /\ second.1.1 = first.1.1
  /\ second.2 = [].
Proof. vm_compute. done. Qed.

(** ** The further properties at work *)

(** A second observer, subscribed after the first, is called after it. *)
Lemma subscribed_is_notified_witness :
  let subs := registry_after [Subscribes id1 (aloof quiet)] in
  own subs id2 = None /\
  (executeMutation_then_live extract (user_response "Bob")
                             (reenter subs (Subscribes id2 (aloof quiet)))).2 =
    [(id1, ["User"], user_response "Bob");
     (id2, ["User"], user_response "Bob")].
Proof.
  intros subs. split; [reflexivity|].
  assert (Hquiet :
            Forall (fun kv : string * Observer =>
                      kv.2 (extract (user "Bob")) (user_response "Bob") =
                        ([], None))
                   (reenter subs (Subscribes id2 (aloof quiet)))).
  { repeat constructor. }
  rewrite (subscribed_is_notified extract subs id2 (aloof quiet)
             (user_response "Bob") (user "Bob")
             eq_refl eq_refl eq_refl Hquiet).
  reflexivity.
Defined.

(** The first query of a new client, answered with Ann, then the same
    query again with the transport down. *)
Lemma resolved_query_is_cached_witness :
  let first := executeQuery djb2 extract no_number user_query false
                            (Parsed (user_response "Ann")) fresh in
  first.1.1 =
    Normal (Resolved {| data := user "Ann"; typeNames := ["User"] |}) /\
  executeQuery djb2 extract no_number user_query false
               (Failed (External "offline")) first.1.2 =
    (Normal (Resolved {| data := user "Ann"; typeNames := ["User"] |}),
     first.1.2, []).
Proof.
  intros first. split; [reflexivity|].
  exact (proj2 (proj2 (proj2
           (resolved_query_is_cached djb2 extract no_number
              (run djb2 extract no_number [] fresh) user_query false
              (Parsed (user_response "Ann"))
              {| data := user "Ann"; typeNames := ["User"] |}
              (reachable_run djb2 extract no_number (Some api) [] fresh
                             eq_refl)
              eq_refl)))
           (Failed (External "offline"))).
Defined.

(** Two overlapping queries of a new client: answered Ann then Bob the
    cache keeps Bob, answered Bob then Ann it keeps Ann. *)
Lemma overlapping_queries_race_witness :
  let both := run djb2 extract no_number
                  [DoExecuteQuery user_query false;
                   DoExecuteQuery user_query false] fresh in
  let hash := djb2 (body_of no_number user_query) in
  inflight both = [QueryInflight hash; QueryInflight hash] /\
  store (client (perform djb2 extract no_number
                         (Arrive 0 (Parsed (user_response "Bob")))
                         (perform djb2 extract no_number
                                  (Arrive 0 (Parsed (user_response "Ann")))
                                  both))) !! hash = Some (user "Bob") /\
  store (client (perform djb2 extract no_number
                         (Arrive 0 (Parsed (user_response "Ann")))
                         (perform djb2 extract no_number
                                  (Arrive 1 (Parsed (user_response "Bob")))
                                  both))) !! hash = Some (user "Ann").
Proof.
  intros both hash.
  destruct (overlapping_queries_race djb2 extract no_number
              (run djb2 extract no_number [] fresh) user_query
              (user_response "Ann") (user "Ann")
              (user_response "Bob") (user "Bob")
              eq_refl eq_refl eq_refl eq_refl eq_refl)
    as (_ & _ & Hinflight & [Hlast _] & [Hlast' _]).
  split_and!; [exact Hinflight|exact Hlast|exact Hlast'].
Defined.

(** A query and a mutation have different bodies. *)
Lemma body_shows_query_witness :
  query user_query <> query rename_mutation /\
  body_of no_number user_query <> body_of no_number rename_mutation.
Proof.
  assert (Hne : query user_query <> query rename_mutation) by discriminate.
  split; [exact Hne|].
  exact (body_shows_query no_number user_query rename_mutation Hne).
Defined.

(** The paged query with its two variables in either order. *)
Lemma body_shows_first_key_witness :
  body_of no_number (paged_query "first" "after") <>
  body_of no_number (paged_query "after" "first").
Proof.
  apply (body_shows_first_key no_number _ "first" _ _ _ "after").
  discriminate.
Defined.

(** The client built for the test endpoint. *)
Lemma fresh_client_misses_witness :
  new_Client (Some api) = Normal fresh /\
  url fresh <> "" /\
  calls (executeMutation extract no_number rename_mutation
                         (Parsed (user_response "Bob")) fresh).2 = [].
Proof.
  split; [reflexivity|].
  destruct (fresh_client_misses djb2 extract no_number (Some api) fresh
              rename_mutation false (Parsed (user_response "Bob")) eq_refl)
    as (Hurl & _ & Hcalls).
  split; [exact Hurl|exact Hcalls].
Defined.
